(** * sandboxed: the execution-session handlers, embedded and verified

    The repository holds three revisions of [executeHandler]:
    - [Part001]   the synchronous JSON handler (request in, one response out);
    - [ExecuteGo] [cmd/api/execute.go], the websocket handler with a 30 s
                  deadline that demultiplexes the log stream with [StdCopy];
    - [Part000]   the websocket handler that forwards the log stream line by
                  line with a [bufio.Scanner] and has no deadline.

    Library calls (Docker client, gorilla/websocket, archive/tar, stdcopy,
    net/http) are not part of the repository.  The Docker daemon's answers
    are inputs of the model (an environment record); the small amount of
    library behaviour the handlers rely on is written out next to each
    model and follows the libraries' documented contracts. *)

From stdpp Require Import gmap strings list.
From Stdlib Require Import ZArith Strings.Byte.

Local Open Scope Z_scope.

(* ===================================================================== *)
(** ** Go values shared by all handlers *)
(* ===================================================================== *)

(** A Go [error] value.  [EOF] is the sentinel [io.EOF], which
    [execute.go] compares against; the other sentinels belong to
    archive/tar and gorilla/websocket.  [Err detail] is any other error,
    [detail] being what [%v] prints. *)
Inductive error :=
| EOF
| ErrWriteTooLong
| ErrWriteAfterClose
| ErrCloseSent
| Err (detail : string).

Definition error_text (e : error) : string :=
  match e with
  | EOF => "EOF"
  | ErrWriteTooLong => "archive/tar: write too long"
  | ErrWriteAfterClose => "archive/tar: write after close"
  | ErrCloseSent => "websocket: close sent"
  | Err d => d
  end.

Global Instance error_eq_dec : EqDecision error.
Proof. solve_decision. Defined.

(** [[]byte(s)] and [string(b)]. *)
Definition bytes_of (s : string) : list byte := String.list_byte_of_string s.
Definition string_of (b : list byte) : string := String.string_of_list_byte b.

(** [len] of a byte slice, as the [int64] the tar header stores. *)
Definition len (b : list byte) : Z := Z.of_nat (length b).

(* ===================================================================== *)
(** ** net/http: status texts and the response writer *)
(* ===================================================================== *)

Module http.

Definition StatusOK : Z := 200.
Definition StatusBadRequest : Z := 400.
Definition StatusRequestTimeout : Z := 408.
Definition StatusInternalServerError : Z := 500.

(** [http.StatusText], on the codes this repository uses; Go returns the
    empty string for a code it does not know. *)
Definition StatusText (code : Z) : string :=
  if decide (code = 200) then "OK"
  else if decide (code = 400) then "Bad Request"
  else if decide (code = 408) then "Request Timeout"
  else if decide (code = 500) then "Internal Server Error"
  else "".

(** What a handler writes into a response body: a JSON object with string
    fields (all the JSON this program emits), or plain text. *)
Inductive part :=
| Json (doc : gmap string string)
| Text (s : string).

(** The state of an [http.ResponseWriter].  [statusCode] is the status
    line the client receives; as in [responseWriter] of middleware.go it
    starts at 200 and is fixed by the first [WriteHeader], explicit or
    implied by the first [Write].  [headerCalls] records the explicit
    [WriteHeader] calls and [broken] says that writes to the peer fail. *)
Record ResponseWriter := mkRW {
  statusCode : Z;
  headerWritten : bool;
  Header : gmap string string;
  body : list part;
  headerCalls : list Z;
  broken : bool
}.

Definition fresh (broken : bool) : ResponseWriter :=
  mkRW StatusOK false ∅ [] [] broken.

(** The header is committed once; later calls change nothing
    (middleware.go, [responseWriter.WriteHeader]). *)
Definition commit (code : Z) (rw : ResponseWriter) : ResponseWriter :=
  if headerWritten rw then rw
  else mkRW code true (Header rw) (body rw) (headerCalls rw) (broken rw).

Definition WriteHeader (code : Z) (rw : ResponseWriter) : ResponseWriter :=
  let rw := commit code rw in
  mkRW (statusCode rw) (headerWritten rw) (Header rw) (body rw)
       (headerCalls rw ++ [code]) (broken rw).

(** [Write]: an unwritten header goes out as 200 first
    (middleware.go, [responseWriter.Write]). *)
Definition Write (p : part) (rw : ResponseWriter) : ResponseWriter * option error :=
  let rw := commit StatusOK rw in
  if broken rw then (rw, Some (Err "write: broken pipe"))
  else (mkRW (statusCode rw) (headerWritten rw) (Header rw) (body rw ++ [p])
             (headerCalls rw) (broken rw), None).

(** [w.Header().Set(k, v)]. *)
Definition SetHeader (k v : string) (rw : ResponseWriter) : ResponseWriter :=
  mkRW (statusCode rw) (headerWritten rw) (<[k := v]> (Header rw)) (body rw)
       (headerCalls rw) (broken rw).

End http.

(* ===================================================================== *)
(** ** encoding/json, as far as the handlers use it *)
(* ===================================================================== *)

Module json.

(** An [interface{}] handed to the encoder: a string, or a value
    encoding/json rejects (a channel, a function). *)
Inductive any :=
| String (s : string)
| Unsupported.

Definition is_string (v : any) : bool :=
  match v with String _ => true | Unsupported => false end.

Definition unstring (v : any) : option string :=
  match v with String s => Some s | Unsupported => None end.

(** [json.Marshal] of a [map[string]interface{}]: an error as soon as one
    value is not encodable. *)
Definition Marshal (m : gmap string any) : option (gmap string string) :=
  if bool_decide (map_Forall (λ _ v, is_string v = true) m)
  then Some (omap unstring m) else None.

(** [json.NewEncoder(w).Encode(v)]: marshal first, then one [Write]. *)
Definition Encode (m : gmap string any) (w : http.ResponseWriter)
  : http.ResponseWriter * option error :=
  match Marshal m with
  | None => (w, Some (Err "json: unsupported type"))
  | Some doc => http.Write (http.Json doc) w
  end.

End json.

(* ===================================================================== *)
(** ** cmd/api/main.go *)
(* ===================================================================== *)

(** [type envelope map[string]interface{}] *)
Abbreviation envelope := (gmap string json.any).

(** [errorResponse], main.go lines 26-33.  The request [r] is unused and
    left out; [status] is a parameter exactly as in the source. *)
Definition errorResponse (w : http.ResponseWriter) (status : Z) (message : json.any)
  : http.ResponseWriter :=
  let env : envelope := {[ "error" := message ]} in
  let '(w, err) := json.Encode env w in
  match err with
  | Some _ => http.WriteHeader http.StatusInternalServerError w
  | None => w
  end.

(* ===================================================================== *)
(** ** archive/tar: the writer, at the level of archive members *)
(* ===================================================================== *)

Module tar.

(** [tar.Header], with the fields the handlers set. *)
Record Header := mkHeader {
  Name : string;
  Mode : Z;
  Size : Z
}.

(** One member of the archive image: its header and the bytes stored. *)
Record member := mkMember {
  hdr : Header;
  data : list byte
}.

(** [tar.Writer] over a [bytes.Buffer].  [image] is what has reached the
    buffer, member by member (the last one may still be open); [nb] is the
    number of bytes the open member still expects; [trailer] says that the
    end-of-archive marker is written; [err] is the writer's sticky error. *)
Record Writer := mkWriter {
  image : list member;
  nb : Z;
  trailer : bool;
  err : option error
}.

Definition NewWriter : Writer := mkWriter [] 0 false None.

(** [Flush]: refuses to move on while the open member is short of data. *)
Definition Flush (tw : Writer) : option error :=
  match err tw with
  | Some e => Some e
  | None => if decide (0 < nb tw) then Some (Err "archive/tar: missed writing bytes") else None
  end.

(** [WriteHeader]: finish the previous member, then open a new one that
    expects [Size] bytes.  A negative size is rejected for good. *)
Definition WriteHeader (h : Header) (tw : Writer) : Writer * option error :=
  match Flush tw with
  | Some e => (tw, Some e)
  | None =>
      if decide (Size h < 0)
      then let e := Err "archive/tar: negative size on header" in
           (mkWriter (image tw) (nb tw) (trailer tw) (Some e), Some e)
      else (mkWriter (image tw ++ [mkMember h []]) (Size h) (trailer tw) None, None)
  end.

(** Append to the data of the open (last) member. *)
Definition store (b : list byte) (ms : list member) : list member :=
  match reverse ms with
  | [] => []
  | m :: before => reverse before ++ [mkMember (hdr m) (data m ++ b)]
  end.

(** [Write]: at most [nb] bytes are stored; a longer slice is cut and
    reported as [ErrWriteTooLong]. *)
Definition Write (b : list byte) (tw : Writer) : Writer * option error :=
  match err tw with
  | Some e => (tw, Some e)
  | None =>
      let overwrite := bool_decide (nb tw < len b) in
      let b' := if overwrite then take (Z.to_nat (nb tw)) b else b in
      (mkWriter (store b' (image tw)) (nb tw - len b') (trailer tw) None,
       if overwrite then Some ErrWriteTooLong else None)
  end.

(** [Close]: flush, write the end-of-archive marker, and make every later
    action fail; closing a closed writer is a no-op without error. *)
Definition Close (tw : Writer) : Writer * option error :=
  match err tw with
  | Some ErrWriteAfterClose => (tw, None)
  | Some e => (tw, Some e)
  | None =>
      match Flush tw with
      | Some e => (tw, Some e)
      | None => (mkWriter (image tw) (nb tw) true (Some ErrWriteAfterClose), None)
      end
  end.

(** Reading an image back, as a [tar.Reader] loop does: every member gives
    its name, its permission bits, its declared size and its contents; an
    image without the end-of-archive marker is truncated. *)
Definition unpack (tw : Writer) : option (list (string * Z * Z * list byte)) :=
  if trailer tw
  then Some ((λ m, (Name (hdr m), Mode (hdr m), Size (hdr m), data m)) <$> image tw)
  else None.

End tar.

(** The Payload Packager: the three writer calls every revision of
    [executeHandler] makes (execute.go lines 78-102, part_001 lines 56-77),
    with the step that failed, if one did. *)
Inductive packStep := AtHeader | AtWrite | AtClose.

(** The permission bits [0644] (octal). *)
Definition perm0644 : Z := 6 * 64 + 4 * 8 + 4.

(** [&tar.Header{Name: "main.go", Mode: 0644, Size: int64(len(input.Text))}] *)
Definition mainGo (text : string) : tar.Header :=
  tar.mkHeader "main.go" perm0644 (Z.of_nat (String.length text)).

Definition package (text : string) : tar.Writer * option (packStep * error) :=
  let tw := tar.NewWriter in
  let '(tw, e) := tar.WriteHeader (mainGo text) tw in
  match e with
  | Some e => (tw, Some (AtHeader, e))
  | None =>
      let '(tw, e) := tar.Write (bytes_of text) tw in
      match e with
      | Some e => (tw, Some (AtWrite, e))
      | None =>
          let '(tw, e) := tar.Close tw in
          match e with
          | Some e => (tw, Some (AtClose, e))
          | None => (tw, None)
          end
      end
  end.

(* ===================================================================== *)
(** ** docker/pkg/stdcopy: demultiplexing the combined output stream *)
(* ===================================================================== *)

Module stdcopy.

(** The source of a stream: the bytes that arrive, and how the stream ends
    after them ([None] is a clean end of stream, [io.EOF]). *)
Record Reader := mkReader {
  pending : list byte;
  ending : option error
}.

(** The first byte of a frame header names the stream. *)
Inductive StdType := Stdin | Stdout | Stderr | Systemerr.

Definition stdType (b : byte) : option StdType :=
  match Byte.to_nat b with
  | 0%nat => Some Stdin
  | 1%nat => Some Stdout
  | 2%nat => Some Stderr
  | 3%nat => Some Systemerr
  | _ => None
  end.

(** Bytes 4..7 of the header: the payload length, big endian. *)
Definition frameSize (b4 b5 b6 b7 : byte) : nat :=
  ((Byte.to_nat b4 * 256 + Byte.to_nat b5) * 256 + Byte.to_nat b6) * 256 + Byte.to_nat b7.

(** Destination buffers live in a store and are named by index, so that a
    caller may pass the same buffer twice (part_001 does). *)
Definition bufWrite (dst : nat) (b : list byte) (bufs : gmap nat (list byte))
  : gmap nat (list byte) :=
  <[dst := (bufs !!! dst) ++ b]> bufs.

(** The frame loop of [StdCopy].  A header that cannot be completed, or a
    payload cut short, ends the copy with whatever ended the stream: [nil]
    after a clean end, the read error otherwise.  An unknown stream byte is
    an error before the payload is read; a [Systemerr] frame is returned as
    an error once it is complete.  The result is the store, the unread
    rest of the stream and the error.  [fuel] bounds the number of frames;
    [StdCopy] gives more fuel than a stream can hold frames. *)
Fixpoint frames (fuel : nat) (dstout dsterr : nat) (src : list byte)
    (ending : option error) (bufs : gmap nat (list byte))
  : gmap nat (list byte) * list byte * option error :=
  match fuel with
  | O => (bufs, src, ending)
  | S fuel =>
      match src with
      | t :: _ :: _ :: _ :: b4 :: b5 :: b6 :: b7 :: rest =>
          match stdType t with
          | None => (bufs, src, Some (Err "Unrecognized input header"))
          | Some ty =>
              let n := frameSize b4 b5 b6 b7 in
              if decide (length rest < n)%nat then (bufs, [], ending)
              else
                let payload := take n rest in
                match ty with
                | Systemerr =>
                    (bufs, drop n rest,
                     Some (Err ("error from daemon in stream: " +:+ string_of payload)))
                | Stderr =>
                    frames fuel dstout dsterr (drop n rest) ending (bufWrite dsterr payload bufs)
                | Stdin | Stdout =>
                    frames fuel dstout dsterr (drop n rest) ending (bufWrite dstout payload bufs)
                end
          end
      | _ => (bufs, [], ending)
      end
  end.

(** [StdCopy(dstout, dsterr, src)]: the store after the copy, the reader
    left behind, and the error. *)
Definition StdCopy (dstout dsterr : nat) (src : Reader) (bufs : gmap nat (list byte))
  : gmap nat (list byte) * Reader * option error :=
  let '(bufs, rest, e) :=
    frames (S (length (pending src))) dstout dsterr (pending src) (ending src) bufs in
  (bufs, mkReader rest (ending src), e).

End stdcopy.

(* ===================================================================== *)
(** ** gorilla/websocket: the connection and the upgrader *)
(* ===================================================================== *)

Module websocket.

Inductive messageType := TextMessage | CloseMessage.

(** What a message carries: the bytes given to [WriteMessage], or the
    string given to [WriteJSON] (sent as its JSON encoding). *)
Inductive payload :=
| Raw (b : list byte)
| JSON (s : string).

(** A server connection seen from the writing side.  [sent] are the
    messages that reached the peer.  [writeErr] is the connection's sticky
    write error: the first failed write sets it, a written close message
    sets it to [ErrCloseSent], and every later write returns it without
    sending anything.  [net] lists the outcomes of the coming writes on the
    underlying socket ([false]: the peer is gone), all good once the list
    is used up. *)
Record Conn := mkConn {
  sent : list (messageType * payload);
  writeErr : option error;
  net : list bool
}.

Definition connect (net : list bool) : Conn := mkConn [] None net.

(** One write on the connection: [conn.WriteMessage(mt, b)] with [Raw b],
    [conn.WriteJSON(s)] with [TextMessage] and [JSON s]. *)
Definition write (mt : messageType) (p : payload) (c : Conn) : Conn * option error :=
  match writeErr c with
  | Some e => (c, Some e)
  | None =>
      match net c with
      | false :: net' =>
          let e := Err "write: connection reset by peer" in
          (mkConn (sent c) (Some e) net', Some e)
      | _ =>
          (mkConn (sent c ++ [(mt, p)])
                  (match mt with CloseMessage => Some ErrCloseSent | TextMessage => None end)
                  (tail (net c)),
           None)
      end
  end.

(** [conn.Close()] closes the socket: later writes fail. *)
Definition Close (c : Conn) : Conn :=
  mkConn (sent c)
         (match writeErr c with
          | Some e => Some e
          | None => Some (Err "use of closed network connection")
          end)
         (net c).

(** An upgrade request, as far as the origin check reads it: the request's
    [Host] and the host named by its [Origin] header, if it has one. *)
Record Request := mkRequest {
  Host : string;
  Origin : option string
}.

Record Upgrader := mkUpgrader {
  ReadBufferSize : Z;
  WriteBufferSize : Z;
  CheckOrigin : option (Request → bool)
}.

(** The library's default when [CheckOrigin] is nil. *)
Definition checkSameOrigin (r : Request) : bool :=
  match Origin r with
  | None => true
  | Some o => bool_decide (o = Host r)
  end.

(** The origin gate of [Upgrader.Upgrade]: the handshake is refused with
    403 when the check says no; [rest] is the outcome of the rest of the
    handshake. *)
Definition originAllowed (u : Upgrader) (r : Request) : bool :=
  match CheckOrigin u with
  | Some check => check r
  | None => checkSameOrigin r
  end.

Definition Upgrade (u : Upgrader) (r : Request) (rest : option error) : option error :=
  if originAllowed u r then rest
  else Some (Err "websocket: request origin not allowed by Upgrader.CheckOrigin").

End websocket.

(** [var upgrader], execute.go lines 19-25 and part_000 lines 27-33. *)
Definition upgrader : websocket.Upgrader :=
  websocket.mkUpgrader 1024 1024 (Some (λ r, true)).

(* ===================================================================== *)
(** ** The Docker client: calls made, answers received *)
(* ===================================================================== *)

Module docker.

Record Config := mkConfig {
  Image : string;
  Cmd : list string;
  WorkingDir : string;
  Tty : bool;
  AttachStdout : bool;
  AttachStderr : bool
}.

(** A call on the client, with the arguments the handlers choose. *)
Inductive call :=
| ContainerCreate (c : Config) (autoRemove : bool)
| CopyToContainer (id path : string) (archive : tar.Writer)
| ContainerStart (id : string)
| ContainerLogs (id : string) (follow : bool)
| ContainerWait (id : string)
| ContainerRemove (id : string) (force : bool)
| Close.

End docker.

(** The answer of a call that yields a value. *)
Inductive result (A : Type) :=
| Ok (a : A)
| Failed (e : error).
Arguments Ok {A} a.
Arguments Failed {A} e.

(** What the [select] over [errCh], [statusCh] and [ctx.Done()] receives.
    [errCh] may deliver a nil error, which the handlers test for. *)
Inductive raced :=
| FromErrCh (e : option error)
| FromStatusCh (exitCode : Z)
| FromCtxDone.

(** Everything a session's outcome depends on besides the code: the
    request, the daemon's answers, the socket, and which channel wins. *)
Record Env := mkEnv {
  request : websocket.Request;
  handshake : option error;        (* the rest of the websocket handshake *)
  payload : result string;         (* decoding {"text": ...} *)
  wire : list bool;                (* outcomes of websocket socket writes *)
  newClient : option error;
  create : result string;
  copy : option error;
  start : option error;
  logs : result stdcopy.Reader;
  lines : list string;             (* the tokens bufio.Scanner yields *)
  wait : raced
}.

(* ===================================================================== *)
(** ** Handler runs: events, deferred calls, early returns *)
(* ===================================================================== *)

(** What a run does that is visible outside the handler. *)
Inductive event :=
| Docker (c : docker.call)
| Logf (line : string)                       (* app.logger.Printf *)
| Println (line : string)                    (* fmt.Println *)
| WsWrite (mt : websocket.messageType) (p : websocket.payload) (res : option error)
| WsClose                                    (* conn.Close() *)
| CtxCancel                                  (* cancel() *)
| TarClose                                   (* the deferred tw.Close() *)
| LogsClose                                  (* reader.Close() / logs.Close() *)
| CloseDone.                                 (* close(done) *)

(** The state a handler threads through its body: the HTTP response, the
    websocket connection, the trace so far, and the stack of deferred
    calls (most recent first), each named by the event it performs. *)
Record hstate := mkH {
  w : http.ResponseWriter;
  conn : websocket.Conn;
  trace : list event;
  defers : list event
}.

Definition initial (brokenPipe : bool) (env : Env) : hstate :=
  mkH (http.fresh brokenPipe) (websocket.connect (wire env)) [] [].

(** A statement either falls through with a value or returns from the
    handler. *)
Inductive flow (A : Type) :=
| Next (a : A)
| Return.
Arguments Next {A} a.
Arguments Return {A}.

Definition H (A : Type) : Type := hstate → flow A * hstate.

Global Instance H_ret : MRet H := λ A a s, (Next a, s).
Global Instance H_bind : MBind H := λ A B k m s,
  match m s with
  | (Next a, s') => k a s'
  | (Return, s') => (Return, s')
  end.

Definition return_ {A} : H A := λ s, (Return, s).

Definition emit (e : event) : H unit :=
  λ s, (Next (), mkH (w s) (conn s) (trace s ++ [e]) (defers s)).

Definition defer (e : event) : H unit :=
  λ s, (Next (), mkH (w s) (conn s) (trace s) (e :: defers s)).

Definition onW (f : http.ResponseWriter → http.ResponseWriter) : H unit :=
  λ s, (Next (), mkH (f (w s)) (conn s) (trace s) (defers s)).

(** [app.errorResponse(w, r, status, message)] *)
Definition respond (status : Z) (message : string) : H unit :=
  onW (λ w, errorResponse w status (json.String message)).

(** A websocket write, traced with what it returned. *)
Definition send (mt : websocket.messageType) (p : websocket.payload) (s : hstate)
  : option error * hstate :=
  let '(c, res) := websocket.write mt p (conn s) in
  (res, mkH (w s) c (trace s ++ [WsWrite mt p res]) (defers s)).

Definition wsWrite (mt : websocket.messageType) (p : websocket.payload) : H (option error) :=
  λ s, let '(res, s') := send mt p s in (Next res, s').

(** [conn.WriteMessage(websocket.CloseMessage,
    []byte(http.StatusText(code)))], its error dropped as in the source. *)
Definition closeWith (code : Z) : H unit :=
  _ ← wsWrite websocket.CloseMessage (websocket.Raw (bytes_of (http.StatusText code)));
  mret ().

(** A client call: traced, then its answer; on failure [handle] runs and
    the handler returns. *)
Definition try {A} (c : docker.call) (answer : result A) (handle : error → H unit) : H A :=
  emit (Docker c);;
  match answer with
  | Ok a => mret a
  | Failed e => handle e;; return_
  end.

Definition check (answer : option error) : result unit :=
  match answer with
  | None => Ok ()
  | Some e => Failed e
  end.

(** Running one deferred call. *)
Definition perform (e : event) (s : hstate) : hstate :=
  mkH (w s)
      (match e with WsClose => websocket.Close (conn s) | _ => conn s end)
      (trace s ++ [e]) (defers s).

(** One step of unwinding: pop the latest deferred call and run it. *)
Definition unwind1 (s : hstate) : hstate :=
  match defers s with
  | [] => s
  | e :: ds => perform e (mkH (w s) (conn s) (trace s) ds)
  end.

Fixpoint unwindN (n : nat) (s : hstate) : hstate :=
  match n with
  | O => s
  | S n => unwindN n (unwind1 s)
  end.

(** Returning from the handler runs every deferred call, latest first. *)
Definition unwind (s : hstate) : hstate := unwindN (length (defers s)) s.

(** The [%v] messages of the three packaging steps (sync handler) and the
    log lines of the websocket handlers. *)
Definition packMessage (step : packStep) : string :=
  match step with
  | AtHeader => "Failed to write tar header: "
  | AtWrite => "Failed to write file to tar: "
  | AtClose => "Failed to close tar writer: "
  end.

(** The container every revision asks for; only [Tty] differs. *)
Definition containerConfig (tty : bool) : docker.Config :=
  docker.mkConfig "golang:1.21" ["go"; "run"; "main.go"] "/app" tty true true.

(** The packaging steps inside a handler: on failure [handle] answers the
    caller and the handler returns. *)
Definition pack (text : string) (handle : packStep → error → H unit) : H tar.Writer :=
  match package text with
  | (tw, None) => mret tw
  | (_, Some (step, e)) => handle step e;; return_
  end.

(** A handler body run from [s], followed by its deferred calls. *)
Definition runHandler (body : H unit) (s : hstate) : hstate :=
  unwind (snd (body s)).

(* ===================================================================== *)
(** ** part_001: the synchronous handler *)
(* ===================================================================== *)

Module Part001.

(** [json.NewEncoder(w).Encode(response)] for a [map[string]string]. *)
Definition encode (response : gmap string string) : H (option error) :=
  λ s, let '(w', e) := json.Encode (json.String <$> response) (w s) in
       (Next e, mkH w' (conn s) (trace s) (defers s)).

(** [executeHandler], part_001 lines 17-130. *)
Definition executeHandler (env : Env) : H unit :=
  input ← match payload env with
          | Ok text => mret text
          | Failed _ => respond http.StatusBadRequest "Invalid request payload";; return_
          end;
  match newClient env with
  | None => mret ()
  | Some _ => respond http.StatusInternalServerError "Failed to create Docker client";; return_
  end;;
  defer (Docker docker.Close);;
  defer CtxCancel;;
  id ← try (docker.ContainerCreate (containerConfig false) true) (create env)
          (λ e, respond http.StatusInternalServerError
                        ("Failed to create container: " +:+ error_text e));
  defer (Docker (docker.ContainerRemove id true));;
  defer TarClose;;
  buf ← pack input (λ step e, respond http.StatusInternalServerError
                                      (packMessage step +:+ error_text e));
  try (docker.CopyToContainer id "/app" buf) (check (copy env))
      (λ e, respond http.StatusInternalServerError
                    ("Failed to copy files to container: " +:+ error_text e));;
  try (docker.ContainerStart id) (check (start env))
      (λ e, respond http.StatusInternalServerError
                    ("Failed to start container: " +:+ error_text e));;
  emit (Docker (docker.ContainerWait id));;
  match wait env with
  | FromErrCh (Some e) =>
      respond http.StatusInternalServerError
              ("Error waiting for container: " +:+ error_text e);; return_
  | FromErrCh None => mret ()
  | FromStatusCh _ => mret ()
  | FromCtxDone =>
      respond http.StatusRequestTimeout "Execution timed out";; return_
  end;;
  logs ← try (docker.ContainerLogs id false) (logs env)
            (λ e, respond http.StatusInternalServerError
                          ("Failed to get container logs: " +:+ error_text e));
  defer LogsClose;;
  let stdCopyBuf := 0%nat in
  let '(bufs, _, err) := stdcopy.StdCopy stdCopyBuf stdCopyBuf logs ∅ in
  match err with
  | Some e =>
      respond http.StatusInternalServerError
              ("Failed to read container logs: " +:+ error_text e);; return_
  | None => mret ()
  end;;
  let response : gmap string string :=
    {[ "status" := "success"; "output" := string_of (bufs !!! stdCopyBuf) ]} in
  onW (http.SetHeader "Content-Type" "application/json");;
  onW (http.WriteHeader http.StatusOK);;
  err ← encode response;
  match err with
  | Some _ =>
      respond http.StatusInternalServerError "Failed to encode response";; return_
  | None => mret ()
  end.

(** One request served: the body, then the deferred calls.  [brokenPipe]
    says whether writes to the HTTP client fail. *)
Definition serve (brokenPipe : bool) (env : Env) : hstate :=
  runHandler (executeHandler env) (initial brokenPipe env).

End Part001.


(* ===================================================================== *)
(** ** The part the two websocket handlers share *)
(* ===================================================================== *)

(** [app.logger.Printf("[ERROR] <what>: %v", err)] *)
Definition logError (what : string) (e : error) : H unit :=
  emit (Logf ("[ERROR] " +:+ what +:+ ": " +:+ error_text e)).

(** The way every failure after the upgrade is reported: the detail goes to
    the server log, the client gets a close frame with the status text. *)
Definition fail (what : string) (code : Z) (e : error) : H unit :=
  logError what e;; closeWith code.

Definition packWhat (step : packStep) : string :=
  match step with
  | AtHeader => "Failed to write tar header"
  | AtWrite => "Failed to write file to tar"
  | AtClose => "Failed to close tar writer"
  end.

(** From the upgrade to the started container: execute.go lines 29-115
    and part_000 lines 37-122.  The two differ in the context only:
    execute.go derives one with a deadline and defers its [cancel]
    ([withDeadline]), part_000 uses [context.Background()].  The HTTP
    error reply the upgrader itself writes on a failed handshake is not
    modelled.  The result is the container's ID. *)
Definition startContainer (withDeadline : bool) (env : Env) : H string :=
  match websocket.Upgrade upgrader (request env) (handshake env) with
  | None => mret ()
  | Some e =>
      logError "Failed to upgrade connection" e;;
      respond http.StatusInternalServerError "Failed to upgrade connection";;
      return_
  end;;
  defer WsClose;;
  input ← match payload env with
          | Ok text => mret text
          | Failed e => fail "Failed to read JSON" http.StatusBadRequest e;; return_
          end;
  match newClient env with
  | None => mret ()
  | Some e =>
      fail "Failed to create Docker client" http.StatusInternalServerError e;; return_
  end;;
  defer (Docker docker.Close);;
  (if withDeadline then defer CtxCancel else mret ());;
  id ← try (docker.ContainerCreate (containerConfig true) true) (create env)
          (fail "Failed to create container" http.StatusInternalServerError);
  defer (Docker (docker.ContainerRemove id true));;
  defer TarClose;;
  buf ← pack input (λ step, fail (packWhat step) http.StatusInternalServerError);
  try (docker.CopyToContainer id "/app" buf) (check (copy env))
      (fail "Failed to copy files to container" http.StatusInternalServerError);;
  try (docker.ContainerStart id) (check (start env))
      (fail "Failed to start container" http.StatusInternalServerError);;
  emit (Println "container started");;
  mret id.

(** Changing the sequential part of a concurrent state. *)
Definition after {A} (m : H A) (s : hstate) : hstate := snd (m s).

(* ===================================================================== *)
(** ** cmd/api/execute.go: the websocket handler with a deadline *)
(* ===================================================================== *)

Module ExecuteGo.

(** Where the handler's own goroutine stands (lines 155-187 and the
    return), and where the goroutine of lines 133-148 stands. *)
Inductive mainPc :=
| AtSelect                 (* top of the loop: select on done *)
| AtStdCopy                (* default branch, before StdCopy *)
| AtCloseFrame             (* StdCopy failed: about to send the close frame *)
| AtStdout                 (* if stdout.Len() > 0 *)
| AtStderr                 (* if stderr.Len() > 0 *)
| Unwinding                (* returned: deferred calls are running *)
| Returned.

Inductive waitPc :=
| Idle                     (* never started *)
| AtWait                   (* ContainerWait and the select *)
| AtWaitClose (code : Z)   (* about to send the close frame *)
| AtCloseDone              (* about to close(done) *)
| Finished.

Record state := mkState {
  hs : hstate;
  pc : mainPc;
  gpc : waitPc;
  done : bool;
  id : string;
  reader : stdcopy.Reader;
  bufs : gmap nat (list byte)
}.

(** The two buffers of lines 151-152. *)
Definition stdout : nat := 0.
Definition stderr : nat := 1.

Definition setMain (h : hstate) (p : mainPc) (s : state) : state :=
  mkState h p (gpc s) (done s) (id s) (reader s) (bufs s).

Definition setWait (h : hstate) (g : waitPc) (s : state) : state :=
  mkState h (pc s) g (done s) (id s) (reader s) (bufs s).

(** Forwarding one buffer (lines 169-177 and 179-185): nothing if it is
    empty; otherwise one text message, then either the return (the write
    failed) or the reset. *)
Definition forward (buffer : nat) (line : option string) (next : mainPc) (s : state) : state :=
  let content := bufs s !!! buffer in
  if decide (0 < length content)%nat then
    let '(res, h) := send websocket.TextMessage (websocket.Raw content) (hs s) in
    let h := match line with Some l => after (emit (Println l)) h | None => h end in
    match res with
    | Some e => setMain (after (logError "Failed to write to websocket" e) h) Unwinding s
    | None => mkState h next (gpc s) (done s) (id s) (reader s) (<[buffer := []]> (bufs s))
    end
  else setMain (hs s) next s.

Definition stepMain (s : state) : state :=
  match pc s with
  | AtSelect => setMain (hs s) (if done s then Unwinding else AtStdCopy) s
  | AtStdCopy =>
      let '(bufs', reader', err) := stdcopy.StdCopy stdout stderr (reader s) (bufs s) in
      let s' := mkState (hs s) (pc s) (gpc s) (done s) (id s) reader' bufs' in
      match err with
      | Some e =>
          if decide (e = EOF) then setMain (hs s') Unwinding s'
          else setMain (after (logError "Failed to read logs" e) (hs s')) AtCloseFrame s'
      | None => setMain (hs s') AtStdout s'
      end
  | AtCloseFrame =>
      setMain (after (closeWith http.StatusInternalServerError) (hs s)) Unwinding s
  | AtStdout => forward stdout (Some "stdout") AtStderr s
  | AtStderr => forward stderr None AtSelect s
  | Unwinding =>
      match defers (hs s) with
      | [] => setMain (hs s) Returned s
      | _ => setMain (unwind1 (hs s)) Unwinding s
      end
  | Returned => s
  end.

Definition stepWait (env : Env) (s : state) : state :=
  match gpc s with
  | Idle => s
  | AtWait =>
      let h := after (emit (Docker (docker.ContainerWait (id s)))) (hs s) in
      match wait env with
      | FromErrCh (Some e) =>
          setWait (after (logError "Container wait failed" e) h)
                  (AtWaitClose http.StatusInternalServerError) s
      | FromErrCh None => setWait h AtCloseDone s
      | FromStatusCh _ =>
          setWait (after (emit (Logf "[INFO] Container completed successfully")) h)
                  AtCloseDone s
      | FromCtxDone =>
          setWait (after (emit (Logf "[ERROR] Execution timed out")) h)
                  (AtWaitClose http.StatusRequestTimeout) s
      end
  | AtWaitClose code => setWait (after (closeWith code) (hs s)) AtCloseDone s
  | AtCloseDone =>
      mkState (after (emit CloseDone) (hs s)) (pc s) Finished true (id s) (reader s) (bufs s)
  | Finished => s
  end.

Inductive thread := Main | Waiter.

Definition step (env : Env) (s : state) (t : thread) : state :=
  match t with
  | Main => stepMain s
  | Waiter => stepWait env s
  end.

(** A run under a schedule: which goroutine moves next, step by step. *)
Definition exec (env : Env) (sched : list thread) (s : state) : state :=
  foldl (step env) s sched.

(** Lines 29-129: the shared start, then the log stream is opened. *)
Definition setup (env : Env) : H (string * stdcopy.Reader) :=
  id ← startContainer true env;
  reader ← try (docker.ContainerLogs id true) (logs env)
              (fail "Failed to get container logs" http.StatusInternalServerError);
  defer LogsClose;;
  mret (id, reader).

(** The state in which the two goroutines start, or the final state when
    the handler returned before starting them. *)
Definition spawn (brokenPipe : bool) (env : Env) : state :=
  match setup env (initial brokenPipe env) with
  | (Next (id, reader), h) => mkState h AtSelect AtWait false id reader ∅
  | (Return, h) => mkState (unwind h) Returned Idle false "" (stdcopy.mkReader [] None) ∅
  end.

(** [executeHandler], execute.go lines 27-188, under a schedule. *)
Definition executeHandler (brokenPipe : bool) (env : Env) (sched : list thread) : state :=
  exec env sched (spawn brokenPipe env).

End ExecuteGo.

(* ===================================================================== *)
(** ** part_000: the websocket handler with a line scanner *)
(* ===================================================================== *)

Module Part000.

Inductive mainPc :=
| AtDone                   (* line 160: <-done *)
| Unwinding
| Returned.

(** The goroutine of lines 126-147. *)
Inductive logPc :=
| LIdle
| AtLogs                              (* ContainerLogs *)
| AtLogsCloseFrame                    (* it failed: about to send the close frame *)
| AtScan (tokens : list string)       (* for scanner.Scan() { WriteJSON } *)
| AtCloseDone                         (* line 146 *)
| AtReaderClose                       (* the deferred reader.Close() *)
| LFinished.

(** The goroutine of lines 149-158. *)
Inductive waitPc :=
| WIdle
| AtWait
| WFinished.

Record state := mkState {
  hs : hstate;
  pc : mainPc;
  lpc : logPc;
  wpc : waitPc;
  done : bool;
  id : string
}.

Definition setMain (h : hstate) (p : mainPc) (s : state) : state :=
  mkState h p (lpc s) (wpc s) (done s) (id s).

Definition setLog (h : hstate) (l : logPc) (s : state) : state :=
  mkState h (pc s) l (wpc s) (done s) (id s).

(** The handler's goroutine waits for [done] to be closed and does nothing
    until then. *)
Definition stepMain (s : state) : state :=
  match pc s with
  | AtDone => if done s then setMain (hs s) Unwinding s else s
  | Unwinding =>
      match defers (hs s) with
      | [] => setMain (hs s) Returned s
      | _ => setMain (unwind1 (hs s)) Unwinding s
      end
  | Returned => s
  end.

Definition stepLog (env : Env) (s : state) : state :=
  match lpc s with
  | LIdle => s
  | AtLogs =>
      let h := after (emit (Docker (docker.ContainerLogs (id s) true))) (hs s) in
      match logs env with
      | Failed e => setLog (after (logError "Failed to get container logs" e) h) AtLogsCloseFrame s
      | Ok _ => setLog h (AtScan (lines env)) s
      end
  | AtLogsCloseFrame =>
      setLog (after (closeWith http.StatusInternalServerError) (hs s)) LFinished s
  | AtScan [] => setLog (hs s) AtCloseDone s
  | AtScan (line :: rest) =>
      let '(res, h) := send websocket.TextMessage (websocket.JSON line) (hs s) in
      match res with
      | Some e => setLog (after (logError "Failed to write to websocket" e) h) AtReaderClose s
      | None => setLog h (AtScan rest) s
      end
  | AtCloseDone =>
      mkState (after (emit CloseDone) (hs s)) (pc s) AtReaderClose (wpc s) true (id s)
  | AtReaderClose => setLog (after (emit LogsClose) (hs s)) LFinished s
  | LFinished => s
  end.

(** The select of this goroutine has no [ctx.Done()] case: without an
    answer from the daemon it stays where it is. *)
Definition stepWait (env : Env) (s : state) : state :=
  match wpc s with
  | AtWait =>
      let h := after (emit (Docker (docker.ContainerWait (id s)))) (hs s) in
      match wait env with
      | FromErrCh (Some e) =>
          mkState (after (logError "Container wait error" e) h) (pc s) (lpc s) WFinished (done s) (id s)
      | FromErrCh None | FromStatusCh _ =>
          mkState h (pc s) (lpc s) WFinished (done s) (id s)
      | FromCtxDone => s
      end
  | _ => s
  end.

Inductive thread := Main | Logger | Waiter.

Definition step (env : Env) (s : state) (t : thread) : state :=
  match t with
  | Main => stepMain s
  | Logger => stepLog env s
  | Waiter => stepWait env s
  end.

Definition exec (env : Env) (sched : list thread) (s : state) : state :=
  foldl (step env) s sched.

Definition spawn (brokenPipe : bool) (env : Env) : state :=
  match startContainer false env (initial brokenPipe env) with
  | (Next id, h) => mkState h AtDone AtLogs AtWait false id
  | (Return, h) => mkState (unwind h) Returned LIdle WIdle false ""
  end.

(** [executeHandler], part_000 lines 35-161, under a schedule. *)
Definition executeHandler (brokenPipe : bool) (env : Env) (sched : list thread) : state :=
  exec env sched (spawn brokenPipe env).

End Part000.

(* ===================================================================== *)
(** ** Reading a run *)
(* ===================================================================== *)

(** The image [package] builds when nothing fails. *)
Definition archive (text : string) : tar.Writer :=
  tar.mkWriter [tar.mkMember (mainGo text) (bytes_of text)] 0 true (Some ErrWriteAfterClose).

(** The cleanup calls of a trace: container and force flag, in order. *)
Definition removal (e : event) : option (string * bool) :=
  match e with
  | Docker (docker.ContainerRemove id force) => Some (id, force)
  | _ => None
  end.

Definition removals (tr : list event) : list (string * bool) := omap removal tr.

(** The container a session gets, when the three steps up to and
    including [ContainerCreate] succeed (part_001). *)
Definition created (env : Env) : option string :=
  match payload env, newClient env, create env with
  | Ok _, None, Ok id => Some id
  | _, _, _ => None
  end.

(** A line feed, and the combined stream that carries the two bytes
    ["1\n"] in one stdout frame: stream byte 1, three zero bytes, the
    length 2 in four big-endian bytes, the payload. *)
Definition nl : string := String (Ascii.ascii_of_nat 10) "".

Definition oneLine : list byte :=
  [x01; x00; x00; x00; x00; x00; x00; x02] ++ bytes_of ("1" +:+ nl).

(** The text messages whose write failed. *)
Definition failedText (e : event) : option websocket.payload :=
  match e with
  | WsWrite websocket.TextMessage p (Some _) => Some p
  | _ => None
  end.

Definition failedTexts (tr : list event) : list websocket.payload := omap failedText tr.

(** The text messages the connection accepted. *)
Definition textSent (e : event) : option websocket.payload :=
  match e with
  | WsWrite websocket.TextMessage p None => Some p
  | _ => None
  end.

Definition isCloseDone (e : event) : bool :=
  match e with CloseDone => true | _ => false end.

Definition doneFired (tr : list event) : bool := existsb isCloseDone tr.

(** The text messages accepted after [close(done)]. *)
Fixpoint sentAfterDone (tr : list event) : list websocket.payload :=
  match tr with
  | [] => []
  | e :: tr' => if isCloseDone e then omap textSent tr' else sentAfterDone tr'
  end.

(** ** Invariants of the concurrent runs *)

(** part_000: the handler sits at [<-done], [done] is open and no cleanup
    has run. *)
Definition stuck (s : Part000.state) : Prop :=
  Part000.pc s = Part000.AtDone ∧ Part000.done s = false
  ∧ removals (trace (Part000.hs s)) = [].

(** part_000, any environment: as long as the scanning goroutine is at
    work the handler is stuck; once that goroutine has left its loop,
    either the handler is stuck for good or no text write has failed. *)
Definition scannerInv (s : Part000.state) : Prop :=
  failedTexts (defers (Part000.hs s)) = [] ∧
  match Part000.lpc s with
  | Part000.LIdle =>
      failedTexts (trace (Part000.hs s)) = []
      ∧ Part000.pc s = Part000.Returned ∧ Part000.wpc s = Part000.WIdle
  | Part000.AtLogs | Part000.AtLogsCloseFrame | Part000.AtScan _ | Part000.AtCloseDone =>
      stuck s ∧ failedTexts (trace (Part000.hs s)) = []
  | Part000.AtReaderClose | Part000.LFinished =>
      stuck s ∨ failedTexts (trace (Part000.hs s)) = []
  end.

(** part_000, when [ContainerLogs] fails: the scanning goroutine never
    reaches [close(done)]. *)
Definition noLogsInv (s : Part000.state) : Prop :=
  stuck s
  ∧ Docker (docker.ContainerCreate (containerConfig true) true) ∈ trace (Part000.hs s)
  ∧ match Part000.lpc s with
    | Part000.AtLogs | Part000.AtLogsCloseFrame | Part000.LFinished => True
    | _ => False
    end.

(** execute.go, when the deadline wins the select: nothing is accepted
    after [close(done)], and by the time the waiting goroutine is about to
    close [done] the connection refuses every write. *)
Definition deadlineInv (s : ExecuteGo.state) : Prop :=
  sentAfterDone (trace (ExecuteGo.hs s)) = []
  ∧ omap textSent (defers (ExecuteGo.hs s)) = []
  ∧ existsb isCloseDone (defers (ExecuteGo.hs s)) = false
  ∧ match ExecuteGo.gpc s with
    | ExecuteGo.Idle | ExecuteGo.AtWait | ExecuteGo.AtWaitClose _ =>
        doneFired (trace (ExecuteGo.hs s)) = false
    | ExecuteGo.AtCloseDone =>
        doneFired (trace (ExecuteGo.hs s)) = false
        ∧ websocket.writeErr (conn (ExecuteGo.hs s)) ≠ None
    | ExecuteGo.Finished => websocket.writeErr (conn (ExecuteGo.hs s)) ≠ None
    end.

(** Two concrete sessions.  In [disconnecting] the client goes away
    before the first output line is written; in [sleeper] the program
    outlives the deadline while a first stdout frame is already there. *)
Definition disconnecting : Env :=
  mkEnv (websocket.mkRequest "sandbox" None) None (Ok "package main") [false] None
        (Ok "c0") None None (Ok (stdcopy.mkReader [] None)) ["hello"; "world"]
        (FromStatusCh 0).

Definition sleeper : Env :=
  mkEnv (websocket.mkRequest "sandbox" None) None (Ok "package main") [] None
        (Ok "c0") None None (Ok (stdcopy.mkReader oneLine None)) []
        FromCtxDone.

(** ** What is written on the websocket stream *)

(** The payloads of the close frames a run writes. *)
Definition closeFrame (e : event) : option websocket.payload :=
  match e with
  | WsWrite websocket.CloseMessage p _ => Some p
  | _ => None
  end.

Definition closeFrames (tr : list event) : list websocket.payload := omap closeFrame tr.

(** The three status phrases. *)
Definition statusPhrases : list websocket.payload :=
  [websocket.Raw (bytes_of "Bad Request");
   websocket.Raw (bytes_of "Internal Server Error");
   websocket.Raw (bytes_of "Request Timeout")].

(** Every write on the connection, with what it returned. *)
Definition written (e : event)
  : option (websocket.messageType * websocket.payload * option error) :=
  match e with
  | WsWrite mt p res => Some (mt, p, res)
  | _ => None
  end.

Definition stream (tr : list event)
  : list (websocket.messageType * websocket.payload * option error) :=
  omap written tr.

(** Forgetting the detail of an error: which error it is stays, what it
    says goes.  [scrubEnv] does so for every answer of an environment, so
    that two environments with the same image differ in error details
    only. *)
Definition scrub (e : error) : error :=
  match e with
  | Err _ => Err ""
  | _ => e
  end.

Definition scrubResult {A} (r : result A) : result A :=
  match r with
  | Ok a => Ok a
  | Failed e => Failed (scrub e)
  end.

Definition scrubReader (r : stdcopy.Reader) : stdcopy.Reader :=
  stdcopy.mkReader (stdcopy.pending r) (scrub <$> stdcopy.ending r).

Definition scrubLogs (r : result stdcopy.Reader) : result stdcopy.Reader :=
  match r with
  | Ok r => Ok (scrubReader r)
  | Failed e => Failed (scrub e)
  end.

Definition scrubRaced (r : raced) : raced :=
  match r with
  | FromErrCh e => FromErrCh (scrub <$> e)
  | _ => r
  end.

Definition scrubEnv (env : Env) : Env :=
  mkEnv (request env) (scrub <$> handshake env) (scrubResult (payload env)) (wire env)
        (scrub <$> newClient env) (scrubResult (create env)) (scrub <$> copy env)
        (scrub <$> start env) (scrubLogs (logs env)) (lines env) (scrubRaced (wait env)).

(** execute.go: two runs that agree on everything the client can see. *)
Definition alikeE (s s' : ExecuteGo.state) : Prop :=
  ExecuteGo.pc s = ExecuteGo.pc s'
  ∧ ExecuteGo.gpc s = ExecuteGo.gpc s'
  ∧ ExecuteGo.done s = ExecuteGo.done s'
  ∧ ExecuteGo.id s = ExecuteGo.id s'
  ∧ ExecuteGo.bufs s = ExecuteGo.bufs s'
  ∧ scrubReader (ExecuteGo.reader s) = scrubReader (ExecuteGo.reader s')
  ∧ conn (ExecuteGo.hs s) = conn (ExecuteGo.hs s')
  ∧ defers (ExecuteGo.hs s) = defers (ExecuteGo.hs s')
  ∧ stream (trace (ExecuteGo.hs s)) = stream (trace (ExecuteGo.hs s')).

(** The same for part_000. *)
Definition alikeP (s s' : Part000.state) : Prop :=
  Part000.pc s = Part000.pc s'
  ∧ Part000.lpc s = Part000.lpc s'
  ∧ Part000.wpc s = Part000.wpc s'
  ∧ Part000.done s = Part000.done s'
  ∧ Part000.id s = Part000.id s'
  ∧ conn (Part000.hs s) = conn (Part000.hs s')
  ∧ defers (Part000.hs s) = defers (Part000.hs s')
  ∧ stream (trace (Part000.hs s)) = stream (trace (Part000.hs s')).

(** Close frames carry status phrases: in the trace, and in what the
    waiting goroutine of execute.go is about to send. *)
Definition phrasesE (s : ExecuteGo.state) : Prop :=
  closeFrames (trace (ExecuteGo.hs s)) ⊆ statusPhrases
  ∧ closeFrames (defers (ExecuteGo.hs s)) = []
  ∧ match ExecuteGo.gpc s with
    | ExecuteGo.AtWaitClose code =>
        code = http.StatusInternalServerError ∨ code = http.StatusRequestTimeout
    | _ => True
    end.

Definition phrasesP (s : Part000.state) : Prop :=
  closeFrames (trace (Part000.hs s)) ⊆ statusPhrases
  ∧ closeFrames (defers (Part000.hs s)) = [].

(** Two sessions in which [ContainerCreate] fails, for different reasons. *)
Definition noImage : Env :=
  mkEnv (websocket.mkRequest "sandbox" None) None (Ok "package main") [] None
        (Failed (Err "No such image: golang:1.21")) None None
        (Ok (stdcopy.mkReader [] None)) [] (FromStatusCh 0).

Definition noDaemon : Env :=
  mkEnv (websocket.mkRequest "sandbox" None) None (Ok "package main") [] None
        (Failed (Err "Cannot connect to the Docker daemon at unix:///var/run/docker.sock"))
        None None (Ok (stdcopy.mkReader [] None)) [] (FromStatusCh 0).

(** execute.go: the deferred calls of a session that got its log stream. *)
Definition deferredCalls (id : string) : list event :=
  [LogsClose; TarClose; Docker (docker.ContainerRemove id true); CtxCancel;
   Docker docker.Close; WsClose].

(** execute.go: the cleanup is pending while the loop runs, pending or
    done (never both) while the deferred calls run, and done at the
    return; and a failed text write ends the loop. *)
Definition cleanupInv (s : ExecuteGo.state) : Prop :=
  failedTexts (defers (ExecuteGo.hs s)) = []
  ∧ match ExecuteGo.pc s with
    | ExecuteGo.Unwinding =>
        removals (trace (ExecuteGo.hs s)) ++ removals (defers (ExecuteGo.hs s))
        = [(ExecuteGo.id s, true)]
        ∧ (length (defers (ExecuteGo.hs s)) ≤ 6)%nat
    | ExecuteGo.Returned =>
        defers (ExecuteGo.hs s) = []
        ∧ (ExecuteGo.gpc s = ExecuteGo.Idle
             ∧ (length (removals (trace (ExecuteGo.hs s))) ≤ 1)%nat
             ∧ failedTexts (trace (ExecuteGo.hs s)) = []
           ∨ ExecuteGo.gpc s ≠ ExecuteGo.Idle
             ∧ removals (trace (ExecuteGo.hs s)) = [(ExecuteGo.id s, true)])
    | _ =>
        removals (trace (ExecuteGo.hs s)) = []
        ∧ defers (ExecuteGo.hs s) = deferredCalls (ExecuteGo.id s)
        ∧ failedTexts (trace (ExecuteGo.hs s)) = []
    end
  ∧ match ExecuteGo.pc s with
    | ExecuteGo.Returned => True
    | _ => ExecuteGo.gpc s ≠ ExecuteGo.Idle
    end.

(** ** Further observations and invariants *)




(** The payloads of the text messages a run tried to write, in order. *)
Definition textWrite (e : event) : option websocket.payload :=
  match e with
  | WsWrite websocket.TextMessage p _ => Some p
  | _ => None
  end.

Definition textWrites (tr : list event) : list websocket.payload := omap textWrite tr.

(** part_000: the lines still to be forwarded, with those written so far,
    make up the scanner's lines; every line written before the last one
    was accepted; [done] is closed only when all were. *)
Definition forwardingInv (env : Env) (s : Part000.state) : Prop :=
  textWrites (defers (Part000.hs s)) = []
  ∧ match Part000.lpc s with
    | Part000.LIdle | Part000.AtLogs | Part000.AtLogsCloseFrame =>
        textWrites (trace (Part000.hs s)) = [] ∧ Part000.done s = false
    | Part000.AtScan rest =>
        textWrites (trace (Part000.hs s)) ++ (websocket.JSON <$> rest)
        = websocket.JSON <$> lines env
        ∧ omap textSent (trace (Part000.hs s)) = textWrites (trace (Part000.hs s))
        ∧ Part000.done s = false
    | Part000.AtCloseDone =>
        textWrites (trace (Part000.hs s)) = websocket.JSON <$> lines env
        ∧ omap textSent (trace (Part000.hs s)) = textWrites (trace (Part000.hs s))
        ∧ Part000.done s = false
    | Part000.AtReaderClose | Part000.LFinished =>
        (∃ n, textWrites (trace (Part000.hs s)) = websocket.JSON <$> take n (lines env))
        ∧ (Part000.done s = true →
           omap textSent (trace (Part000.hs s)) = websocket.JSON <$> lines env)
    end.

(** part_000: the deferred calls of a started session. *)
Definition deferredCallsP (id : string) : list event :=
  [TarClose; Docker (docker.ContainerRemove id true); Docker docker.Close; WsClose].

(** part_000: the cleanup is pending while the handler waits, pending or
    done while the deferred calls run, and done at the return. *)
Definition cleanupInvP (s : Part000.state) : Prop :=
  match Part000.pc s with
  | Part000.AtDone =>
      removals (trace (Part000.hs s)) = []
      ∧ defers (Part000.hs s) = deferredCallsP (Part000.id s)
      ∧ Part000.lpc s ≠ Part000.LIdle
  | Part000.Unwinding =>
      removals (trace (Part000.hs s)) ++ removals (defers (Part000.hs s))
      = [(Part000.id s, true)]
      ∧ (length (defers (Part000.hs s)) ≤ 4)%nat
      ∧ Part000.lpc s ≠ Part000.LIdle
  | Part000.Returned =>
      defers (Part000.hs s) = []
      ∧ (Part000.lpc s = Part000.LIdle ∧ Part000.done s = false
           ∧ (length (removals (trace (Part000.hs s))) ≤ 1)%nat
         ∨ Part000.lpc s ≠ Part000.LIdle
           ∧ removals (trace (Part000.hs s)) = [(Part000.id s, true)])
  end.

(* ===================================================================== *)
(** ** cmd/api/middleware.go *)
(* ===================================================================== *)

Module middleware.

(** [type responseWriter struct], lines 45-49: the wrapped writer, the
    status code to log, and whether the header went out through the
    wrapper. *)
Record responseWriter := mkResponseWriter {
  ResponseWriter : http.ResponseWriter;
  statusCode : Z;
  headerWritten : bool
}.

(** [WriteHeader], lines 51-57. *)
Definition WriteHeader (code : Z) (rw : responseWriter) : responseWriter :=
  if headerWritten rw then rw
  else mkResponseWriter (http.WriteHeader code (ResponseWriter rw)) code true.

(** [Write], lines 59-64. *)
Definition Write (p : http.part) (rw : responseWriter) : responseWriter * option error :=
  let rw := if headerWritten rw then rw else WriteHeader http.StatusOK rw in
  let '(inner, err) := http.Write p (ResponseWriter rw) in
  (mkResponseWriter inner (statusCode rw) (headerWritten rw), err).

(** [Header()] is promoted from the embedded writer. *)
Definition SetHeader (k v : string) (rw : responseWriter) : responseWriter :=
  mkResponseWriter (http.SetHeader k v (ResponseWriter rw)) (statusCode rw) (headerWritten rw).

(** What a handler does with the writer it is handed, call by call; after
    a [Write] it may go on according to the error it got back. *)
Inductive handler :=
| Finish
| ThenSetHeader (k v : string) (next : handler)
| ThenWriteHeader (code : Z) (next : handler)
| ThenWrite (p : http.part) (onOk onErr : handler).

(** The handler served on the plain writer, and on the wrapper. *)
Fixpoint serve (next : handler) (w : http.ResponseWriter) : http.ResponseWriter :=
  match next with
  | Finish => w
  | ThenSetHeader k v next => serve next (http.SetHeader k v w)
  | ThenWriteHeader code next => serve next (http.WriteHeader code w)
  | ThenWrite p onOk onErr =>
      match http.Write p w with
      | (w, None) => serve onOk w
      | (w, Some _) => serve onErr w
      end
  end.

Fixpoint serveWrapped (next : handler) (rw : responseWriter) : responseWriter :=
  match next with
  | Finish => rw
  | ThenSetHeader k v next => serveWrapped next (SetHeader k v rw)
  | ThenWriteHeader code next => serveWrapped next (WriteHeader code rw)
  | ThenWrite p onOk onErr =>
      match Write p rw with
      | (rw, None) => serveWrapped onOk rw
      | (rw, Some _) => serveWrapped onErr rw
      end
  end.

(** [logRequest], lines 10-43: serve [next] on a wrapper that starts at
    200, then log at the level the recorded status asks for.  The result
    is the wrapped writer and the level and status of the log line (remote
    address, method, path and duration are left out). *)
Definition logRequest (next : handler) (w : http.ResponseWriter)
  : http.ResponseWriter * (string * Z) :=
  let rw := serveWrapped next (mkResponseWriter w http.StatusOK false) in
  (ResponseWriter rw,
   (if decide (400 ≤ statusCode rw) then "[ERROR]" else "[INFO]", statusCode rw)).

End middleware.

(** [errorResponse] with a string message, as a handler: one [Write] of
    the envelope, and [WriteHeader(500)] if it fails. *)
Definition errorHandler (text : string) : middleware.handler :=
  middleware.ThenWrite (http.Json {[ "error" := text ]}) middleware.Finish
    (middleware.ThenWriteHeader http.StatusInternalServerError middleware.Finish).

(** What the client sees of a response: everything but the record of
    explicit [WriteHeader] calls. *)
Definition seen (w : http.ResponseWriter)
  : Z * bool * gmap string string * list http.part * bool :=
  (http.statusCode w, http.headerWritten w, http.Header w, http.body w, http.broken w).

(** The wrapper and the writer it wraps agree on the header. *)
Definition inStep (rw : middleware.responseWriter) : Prop :=
  middleware.headerWritten rw = http.headerWritten (middleware.ResponseWriter rw)
  ∧ middleware.statusCode rw = http.statusCode (middleware.ResponseWriter rw).

(** A session whose client has left when the output is forwarded. *)
Definition gone : Env :=
  mkEnv (websocket.mkRequest "sandbox" None) None (Ok "package main") [false] None
        (Ok "c0") None None (Ok (stdcopy.mkReader oneLine None)) []
        (FromStatusCh 0).

(** A reader at the clean end of its stream. *)
Definition exhausted (r : stdcopy.Reader) : Prop :=
  stdcopy.pending r = [] ∧ stdcopy.ending r = None.

(** The text message of one buffer (execute.go lines 169-185): none when
    the buffer is empty. *)
Definition batch (b : list byte) : list websocket.payload :=
  if decide (0 < length b)%nat then [websocket.Raw b] else [].

(** execute.go: what one pass of the loop forwards: the whole of stdout,
    then the whole of stderr, as [StdCopy] left them in the two buffers
    when it read the log stream to its end without error. *)
Definition batches (env : Env) : list websocket.payload :=
  match logs env with
  | Ok r =>
      let '(bufs, _, err) := stdcopy.StdCopy ExecuteGo.stdout ExecuteGo.stderr r ∅ in
      match err with
      | None => batch (bufs !!! ExecuteGo.stdout) ++ batch (bufs !!! ExecuteGo.stderr)
      | Some _ => []
      end
  | Failed _ => []
  end.

(** execute.go: the loop has forwarded everything and finds nothing new. *)
Definition allForwarded (env : Env) (s : ExecuteGo.state) : Prop :=
  ExecuteGo.bufs s !!! ExecuteGo.stdout = []
  ∧ ExecuteGo.bufs s !!! ExecuteGo.stderr = []
  ∧ textWrites (trace (ExecuteGo.hs s)) = batches env
  ∧ omap textSent (trace (ExecuteGo.hs s)) = batches env.

(** execute.go: where the forwarding stands at each point of the loop. *)
Definition batchInv (env : Env) (s : ExecuteGo.state) : Prop :=
  let tw := textWrites (trace (ExecuteGo.hs s)) in
  textWrites (defers (ExecuteGo.hs s)) = []
  ∧ match ExecuteGo.pc s with
    | ExecuteGo.AtSelect | ExecuteGo.AtStdCopy =>
        (logs env = Ok (ExecuteGo.reader s) ∧ ExecuteGo.bufs s = ∅ ∧ tw = [])
        ∨ (exhausted (ExecuteGo.reader s) ∧ allForwarded env s)
    | ExecuteGo.AtStdout =>
        exhausted (ExecuteGo.reader s)
        ∧ ((∃ r0, logs env = Ok r0
                  ∧ stdcopy.StdCopy ExecuteGo.stdout ExecuteGo.stderr r0 ∅
                    = (ExecuteGo.bufs s, ExecuteGo.reader s, None)
                  ∧ tw = [])
           ∨ allForwarded env s)
    | ExecuteGo.AtStderr =>
        exhausted (ExecuteGo.reader s)
        ∧ ((∃ r0 B R, logs env = Ok r0
                  ∧ stdcopy.StdCopy ExecuteGo.stdout ExecuteGo.stderr r0 ∅ = (B, R, None)
                  ∧ ExecuteGo.bufs s !!! ExecuteGo.stdout = []
                  ∧ ExecuteGo.bufs s !!! ExecuteGo.stderr = B !!! ExecuteGo.stderr
                  ∧ tw = batch (B !!! ExecuteGo.stdout)
                  ∧ omap textSent (trace (ExecuteGo.hs s)) = tw)
           ∨ allForwarded env s)
    | _ => tw `prefix_of` batches env
    end.

(** A session whose program writes "e" to stderr and then "o" to
    stdout. *)
Definition mixed : Env :=
  mkEnv (websocket.mkRequest "sandbox" None) None (Ok "package main") [] None
        (Ok "c0") None None
        (Ok (stdcopy.mkReader
               ([x02; x00; x00; x00; x00; x00; x00; x01] ++ bytes_of "e"
                ++ [x01; x00; x00; x00; x00; x00; x00; x01] ++ bytes_of "o") None))
        [] (FromStatusCh 0).

(** ** The log stream as the daemon writes it *)

(** One frame of the multiplexed stream [StdCopy] reads: the stream it
    belongs to, the four length bytes of its header and its payload. *)
Record Frame := mkFrame {
  source : stdcopy.StdType;
  size : byte * byte * byte * byte;
  data : list byte
}.

Definition streamByte (ty : stdcopy.StdType) : byte :=
  match ty with
  | stdcopy.Stdin => x00
  | stdcopy.Stdout => x01
  | stdcopy.Stderr => x02
  | stdcopy.Systemerr => x03
  end.

(** The bytes of a frame: the stream byte, three zero bytes, the length,
    the payload. *)
Definition frameBytes (f : Frame) : list byte :=
  let '(b4, b5, b6, b7) := size f in
  [streamByte (source f); x00; x00; x00; b4; b5; b6; b7] ++ data f.

Definition multiplexed (fs : list Frame) : list byte := concat (frameBytes <$> fs).

(** A frame of the program's output whose header states the length of its
    payload. *)
Definition wellFormed (f : Frame) : Prop :=
  source f ≠ stdcopy.Systemerr
  ∧ (let '(b4, b5, b6, b7) := size f in stdcopy.frameSize b4 b5 b6 b7) = length (data f).

Definition isStderr (f : Frame) : bool :=
  match source f with stdcopy.Stderr => true | _ => false end.

(** The payloads of the frames, in stream order. *)
Definition payloads (fs : list Frame) : list byte := concat (data <$> fs).

(** The frames written into a store, each to the buffer of its stream. *)
Definition demux (dstout dsterr : nat) (fs : list Frame) (bufs : gmap nat (list byte))
  : gmap nat (list byte) :=
  foldl (λ b f, stdcopy.bufWrite (if isStderr f then dsterr else dstout) (data f) b) bufs fs.

(** A session of the synchronous handler in which every client call
    succeeds and the program exits by itself. *)
Definition succeeds (env : Env) : Prop :=
  (∃ text, payload env = Ok text) ∧ newClient env = None
  ∧ (∃ id, create env = Ok id) ∧ copy env = None ∧ start env = None
  ∧ match wait env with
    | FromErrCh (Some _) | FromCtxDone => False
    | _ => True
    end.

(** The frames of [mixed]. *)
Definition mixedFrames : list Frame :=
  [mkFrame stdcopy.Stderr (x00, x00, x00, x01) (bytes_of "e");
   mkFrame stdcopy.Stdout (x00, x00, x00, x01) (bytes_of "o")].


(** part_000: how many turns the scanning goroutine still needs, at most,
    to leave its loop. *)
Definition logTurns (env : Env) (l : Part000.logPc) : nat :=
  match l with
  | Part000.AtLogs => length (lines env) + 3
  | Part000.AtScan rest => length rest + 2
  | Part000.AtLogsCloseFrame | Part000.AtCloseDone => 1
  | Part000.LIdle | Part000.AtReaderClose | Part000.LFinished => 0
  end.

(** part_000: the scanning goroutine is past its loop only after
    [close(done)], after a failed text write, or because there was no log
    stream. *)
Definition closedInv (env : Env) (s : Part000.state) : Prop :=
  match Part000.lpc s with
  | Part000.AtLogsCloseFrame => ∀ r, logs env ≠ Ok r
  | Part000.AtScan rest => (length rest ≤ length (lines env))%nat
  | Part000.AtReaderClose | Part000.LFinished =>
      Part000.done s = true ∨ failedTexts (trace (Part000.hs s)) ≠ []
      ∨ ∀ r, logs env ≠ Ok r
  | _ => True
  end.

(** A session with two lines of output. *)
Definition twoLines : Env :=
  mkEnv (websocket.mkRequest "sandbox" None) None (Ok "package main") [] None
        (Ok "c0") None None (Ok (stdcopy.mkReader [] None)) ["hello"; "world"]
        (FromStatusCh 0).

(** The wrapper has passed on one [WriteHeader] call, with the status it
    recorded, or none yet. *)
Definition oneCall (base : list Z) (rw : middleware.responseWriter) : Prop :=
  http.headerCalls (middleware.ResponseWriter rw)
  = base ++ (if middleware.headerWritten rw then [middleware.statusCode rw] else []).

(* ===================================================================== *)
(** * Properties *)
(* ===================================================================== *)

(** ** Evaluating handler bodies *)


Lemma length_bytes_of (text : string) : length (bytes_of text) = String.length text.
Proof.
  unfold bytes_of, String.list_byte_of_string.
  rewrite length_map. induction text as [|c text IH]; simpl; congruence.
Qed.

(** The writer accepts the header, exactly [len(text)] bytes, and the
    close: no step of the packager can fail. *)
Lemma package_ok (text : string) : package text = (archive text, None).
Proof.
  unfold package, tar.WriteHeader, tar.Write, tar.Close, tar.Flush, archive. simpl.
  rewrite decide_False by lia. simpl.
  rewrite bool_decide_eq_false_2 by (unfold len; rewrite length_bytes_of; lia).
  unfold len. rewrite length_bytes_of. simpl.
  rewrite decide_False by lia.
  by rewrite Z.sub_diag.
Qed.

Lemma pack_ok (text : string) handle (s : hstate) :
  pack text handle s = (Next (archive text), s).
Proof. unfold pack. by rewrite package_ok. Qed.

(** The origin gate of the repository's upgrader lets the handshake's
    own outcome through. *)
Lemma upgrade_passes r rest : websocket.Upgrade upgrader r rest = rest.
Proof. done. Qed.

Ltac hsimpl1 :=
  progress (unfold mbind, H_bind, mret, H_ret, try, check, emit, defer, respond, onW,
              return_, initial, fail, logError, closeWith, wsWrite, after, send,
              Part001.encode;
            cbn [fst snd w conn trace defers wire]).

Ltac hsimpl := repeat (first [hsimpl1 | rewrite pack_ok | rewrite upgrade_passes]).

Ltac unwinding :=
  cbn [unwind unwindN length defers unwind1 perform w conn trace app].

(** ** C2: the payload packager *)

(** C2.  For every source text, the packager succeeds and leaves an image
    with exactly one member, named main.go with permission bits 0644,
    whose declared size is the text's byte length and whose contents are
    the text's bytes; reading the image back and converting the contents
    to a string gives the text again. *)
Theorem package_single_entry_roundtrip (text : string) :
  ∃ tw, package text = (tw, None)
    ∧ tar.unpack tw
      = Some [("main.go"%string, perm0644, Z.of_nat (String.length text), bytes_of text)]
    ∧ perm0644 = 420
    ∧ len (bytes_of text) = Z.of_nat (String.length text)
    ∧ string_of (bytes_of text) = text.
Proof.
  exists (archive text). split; [apply package_ok|].
  split; [done|]. split; [done|]. split.
  - unfold len. by rewrite length_bytes_of.
  - apply String.string_of_list_byte_of_string.
Qed.

(** ** C9: errorResponse *)

Lemma Marshal_error (message : json.any) :
  json.Marshal {[ "error" := message ]}
  = match message with
    | json.String text => Some {[ "error" := text ]}
    | json.Unsupported => None
    end.
Proof.
  unfold json.Marshal.
  destruct message as [text|]; simpl.
  - rewrite bool_decide_eq_true_2.
    + by rewrite omap_singleton_Some with (y := text).
    + by apply map_Forall_singleton.
  - rewrite bool_decide_eq_false_2; [done|].
    by rewrite map_Forall_singleton.
Qed.

(** C9.  [errorResponse] gives the same response whatever [status] it is
    called with.  When the message encodes and the write goes through, the
    envelope is appended to the body, [WriteHeader] is not called and the
    status is what it was (200 on a fresh writer).  [WriteHeader(500)] is
    called exactly when encoding fails: the write fails (the header has
    gone out as 200 by then) or the message cannot be marshalled. *)
Theorem errorResponse_never_writes_status
    (w : http.ResponseWriter) (status : Z) (message : json.any) :
  let w' := errorResponse w status message in
  (∀ status', errorResponse w status' message = w') ∧
  match message, http.broken w with
  | json.String text, false =>
      http.body w' = http.body w ++ [http.Json {[ "error" := text ]}]
      ∧ http.headerCalls w' = http.headerCalls w
      ∧ http.statusCode w' = (if http.headerWritten w then http.statusCode w else 200)
  | json.String _, true =>
      http.body w' = http.body w
      ∧ http.headerCalls w' = http.headerCalls w ++ [500]
      ∧ http.statusCode w' = (if http.headerWritten w then http.statusCode w else 200)
  | json.Unsupported, _ =>
      http.body w' = http.body w
      ∧ http.headerCalls w' = http.headerCalls w ++ [500]
      ∧ http.statusCode w' = (if http.headerWritten w then http.statusCode w else 500)
  end.
Proof.
  split; [done|].
  unfold errorResponse, json.Encode. rewrite Marshal_error.
  destruct w as [code written hdr body calls broken].
  destruct message as [text|], written, broken; done.
Qed.

(** On a fresh writer, an error answer with a string message leaves the
    status line at 200 and the envelope in the body (nothing, when the
    client is gone). *)
Lemma errorResponse_fresh (b : bool) (status : Z) (text : string) :
  let w' := errorResponse (http.fresh b) status (json.String text) in
  http.statusCode w' = 200
  ∧ http.body w' = if b then [] else [http.Json {[ "error" := text ]}].
Proof.
  unfold errorResponse, json.Encode. rewrite Marshal_error.
  by destruct b.
Qed.

(** ** C10: the origin check *)

(** C10.  The upgrader's [CheckOrigin] is set and answers [true] for every
    request, so the origin gate of [Upgrade] lets every request through:
    the outcome of an upgrade is the outcome of the rest of the handshake,
    whatever the request's origin is. *)
Theorem upgrader_allows_every_origin (r : websocket.Request) :
  (∃ check, websocket.CheckOrigin upgrader = Some check ∧ check r = true)
  ∧ websocket.originAllowed upgrader r = true
  ∧ (∀ rest, websocket.Upgrade upgrader r rest = rest)
  ∧ (∀ origin rest,
       websocket.Upgrade upgrader (websocket.mkRequest (websocket.Host r) origin) rest
       = websocket.Upgrade upgrader r rest).
Proof. split; [by eexists|]. done. Qed.

(** The library default, by contrast, refuses a foreign origin. *)
Example default_check_refuses_foreign_origin :
  websocket.Upgrade (websocket.mkUpgrader 1024 1024 None)
                    (websocket.mkRequest "sandbox.example" (Some "evil.example")) None
  = Some (Err "websocket: request origin not allowed by Upgrader.CheckOrigin").
Proof. done. Qed.

(** ** The synchronous handler, path by path *)

(** The deadline wins the select: the answer, every call made, and the
    deferred calls all run. *)
Lemma sync_timeout b env text id :
  payload env = Ok text → newClient env = None → create env = Ok id →
  copy env = None → start env = None → wait env = FromCtxDone →
  Part001.serve b env
  = mkH (errorResponse (http.fresh b) http.StatusRequestTimeout
           (json.String "Execution timed out"))
        (websocket.connect (wire env))
        [Docker (docker.ContainerCreate (containerConfig false) true);
         Docker (docker.CopyToContainer id "/app" (archive text));
         Docker (docker.ContainerStart id); Docker (docker.ContainerWait id);
         TarClose; Docker (docker.ContainerRemove id true); CtxCancel;
         Docker docker.Close]
        [].
Proof.
  intros Hp Hn Hc Hcp Hs Hw.
  unfold Part001.serve, runHandler, Part001.executeHandler.
  rewrite Hp, Hn, Hc, Hcp, Hs, Hw.
  hsimpl. unwinding. done.
Qed.

(** [ContainerCreate] fails: the cleanup is not yet deferred. *)
Lemma sync_create_fails b env text e :
  payload env = Ok text → newClient env = None → create env = Failed e →
  Part001.serve b env
  = mkH (errorResponse (http.fresh b) http.StatusInternalServerError
           (json.String ("Failed to create container: " +:+ error_text e)))
        (websocket.connect (wire env))
        [Docker (docker.ContainerCreate (containerConfig false) true);
         CtxCancel; Docker docker.Close]
        [].
Proof.
  intros Hp Hn Hc.
  unfold Part001.serve, runHandler, Part001.executeHandler.
  rewrite Hp, Hn, Hc.
  hsimpl. unwinding. done.
Qed.

(** X1.  In the synchronous handler the cleanup runs exactly once, with
    the force flag, in every session that got a container, and never
    otherwise; the handler always returns with no deferred call left. *)
Lemma sync_cleanup_exactly_once b env :
  removals (trace (Part001.serve b env))
  = match created env with Some id => [(id, true)] | None => [] end
  ∧ defers (Part001.serve b env) = [].
Proof.
  unfold created, Part001.serve, runHandler, Part001.executeHandler.
  destruct env as [req hsk pl wire nc cr cp st lg ln wt].
  cbn [payload newClient create copy start wait logs].
  destruct pl as [text|e]; [|by hsimpl].
  destruct nc as [e|]; [by hsimpl|].
  destruct cr as [id|e]; [|by hsimpl].
  destruct cp as [e|]; [by hsimpl|].
  destruct st as [e|]; [by hsimpl|].
  destruct wt as [[e|]|code|]; try by hsimpl.
  - destruct lg as [r|e]; [|by hsimpl]. hsimpl.
    destruct (stdcopy.StdCopy 0 0 r ∅) as [[bufs r'] [e|]]; [by hsimpl|].
    hsimpl. destruct (json.Encode _ _) as [w' [e|]]; by hsimpl.
  - destruct lg as [r|e]; [|by hsimpl]. hsimpl.
    destruct (stdcopy.StdCopy 0 0 r ∅) as [[bufs r'] [e|]]; [by hsimpl|].
    hsimpl. destruct (json.Encode _ _) as [w' [e|]]; by hsimpl.
Qed.

(** ** C7: the success scenario *)

(** C7.  For the text print(1), when every client call succeeds, the
    container's exit status 0 arrives on the status channel and the
    combined stream is one stdout frame carrying "1\n", the synchronous
    handler sets Content-Type, writes status 200 and the JSON object with
    status "success" and output "1\n". *)
Theorem sync_success_print1 req hsk wire id lines :
  let env := mkEnv req hsk (Ok "print(1)") wire None (Ok id) None None
               (Ok (stdcopy.mkReader oneLine None)) lines (FromStatusCh 0) in
  let s := Part001.serve false env in
  http.statusCode (w s) = 200
  ∧ http.body (w s) = [http.Json {[ "status" := "success"; "output" := "1" +:+ nl ]}]
  ∧ http.headerCalls (w s) = [200]
  ∧ http.Header (w s) !! "Content-Type" = Some "application/json".
Proof.
  intros env s. subst s env.
  unfold Part001.serve, runHandler, Part001.executeHandler.
  cbn [payload newClient create copy start wait logs].
  hsimpl.
  vm_compute. done.
Qed.

(** ** C3: the deadline in the synchronous handler *)

(** C3, evaluated.  When the deadline wins the select, the handler stops
    (no log is read), answers with the envelope "Execution timed out" and
    removes the container with force, once.  The status line is 200, not
    408: [errorResponse] drops its status argument, and the only
    [WriteHeader] call is the 500 made when the client is gone. *)
Theorem sync_timeout_status_is_200 b req hsk wire text id lg lines :
  let env := mkEnv req hsk (Ok text) wire None (Ok id) None None lg lines FromCtxDone in
  let s := Part001.serve b env in
  http.statusCode (w s) = 200
  ∧ http.statusCode (w s) ≠ http.StatusRequestTimeout
  ∧ http.headerCalls (w s) = (if b then [500] else [])
  ∧ http.body (w s) = (if b then [] else [http.Json {[ "error" := "Execution timed out" ]}])
  ∧ removals (trace s) = [(id, true)]
  ∧ (∀ follow, Docker (docker.ContainerLogs id follow) ∉ trace s).
Proof.
  intros env s. subst s.
  rewrite (sync_timeout b env text id) by done.
  cbn [w trace].
  pose proof (errorResponse_fresh b http.StatusRequestTimeout "Execution timed out") as [Hs Hb].
  cbn zeta in Hs, Hb. rewrite Hs, Hb.
  split; [done|]. split; [done|].
  split; [by destruct b|]. split; [done|]. split; [done|].
  intros follow Hin.
  repeat (apply elem_of_cons in Hin as [Hin|Hin]; [discriminate|]).
  by apply elem_of_nil in Hin.
Qed.

(** ** C4: a failed container creation in the synchronous handler *)

(** C4, evaluated.  When [ContainerCreate] fails, the handler answers with
    the envelope "Failed to create container: <error>" and makes no
    removal call.  The status line is 200, not 500, for the reason given
    at C3. *)
Theorem sync_create_failure_status_is_200 b req hsk wire text e cp st lg lines wt :
  let env := mkEnv req hsk (Ok text) wire None (Failed e) cp st lg lines wt in
  let s := Part001.serve b env in
  http.statusCode (w s) = 200
  ∧ http.statusCode (w s) ≠ http.StatusInternalServerError
  ∧ http.body (w s)
    = (if b then []
       else [http.Json {[ "error" := "Failed to create container: " +:+ error_text e ]}])
  ∧ removals (trace s) = [].
Proof.
  intros env s. subst s.
  rewrite (sync_create_fails b env text e) by done.
  cbn [w trace].
  pose proof (errorResponse_fresh b http.StatusInternalServerError
                ("Failed to create container: " +:+ error_text e)) as [Hs Hb].
  cbn zeta in Hs, Hb. rewrite Hs, Hb.
  split; [reflexivity|]. split; [discriminate|]. split; reflexivity.
Qed.

(** ** Traces and the connection *)

Lemma failedTexts_cons e ds :
  failedTexts (e :: ds) = [] → failedText e = None ∧ failedTexts ds = [].
Proof. unfold failedTexts. cbn. by destruct (failedText e). Qed.

Lemma failedTexts_snoc tr e :
  failedTexts (tr ++ [e]) = failedTexts tr ++ option_list (failedText e).
Proof. unfold failedTexts. rewrite omap_app. cbn. by destruct (failedText e). Qed.

Lemma removals_snoc tr e :
  removals (tr ++ [e]) = removals tr ++ option_list (removal e).
Proof. unfold removals. rewrite omap_app. cbn. by destruct (removal e). Qed.

Lemma doneFired_snoc tr e : doneFired (tr ++ [e]) = doneFired tr || isCloseDone e.
Proof. unfold doneFired. rewrite existsb_app. cbn. by rewrite orb_false_r. Qed.

Lemma sentAfterDone_snoc tr e :
  sentAfterDone (tr ++ [e])
  = if doneFired tr then sentAfterDone tr ++ option_list (textSent e) else [].
Proof.
  induction tr as [|e' tr IH]; cbn.
  - by destruct (isCloseDone e).
  - destruct (isCloseDone e'); cbn.
    + rewrite omap_app. cbn. by destruct (textSent e).
    + apply IH.
Qed.

Lemma omap_textSent_cons e ds :
  omap textSent (e :: ds) = [] → textSent e = None ∧ omap textSent ds = [].
Proof. cbn. by destruct (textSent e). Qed.

(** Whatever follows a [close(done)] lies behind the first one. *)
Lemma sentAfterDone_nil tr pre post :
  sentAfterDone tr = [] → tr = pre ++ CloseDone :: post → omap textSent post = [].
Proof.
  revert pre. induction tr as [|e tr IH]; intros pre Hs Heq.
  - by destruct pre.
  - destruct pre as [|e' pre]; cbn in Heq; simplify_eq; cbn in Hs; [done|].
    destruct (isCloseDone e').
    + rewrite omap_app in Hs. by apply app_eq_nil in Hs as [_ Hs].
    + by apply (IH pre).
Qed.

(** A connection with a write error refuses every write and stays as it
    is; a close message leaves a write error behind, sent or not. *)
Lemma write_refused mt p c :
  websocket.writeErr c ≠ None → ∃ e, websocket.write mt p c = (c, Some e).
Proof. unfold websocket.write. destruct (websocket.writeErr c) as [e|]; [eauto|done]. Qed.

Lemma write_close_sticky p c :
  websocket.writeErr (fst (websocket.write websocket.CloseMessage p c)) ≠ None.
Proof.
  unfold websocket.write.
  destruct (websocket.writeErr c) as [e|] eqn:He; cbn; [by rewrite He|].
  by destruct (websocket.net c) as [|[] n].
Qed.

Lemma write_sticky mt p c :
  websocket.writeErr c ≠ None → websocket.writeErr (fst (websocket.write mt p c)) ≠ None.
Proof. intros Hc. by destruct (write_refused mt p c Hc) as [e ->]. Qed.

Lemma close_sticky c : websocket.writeErr (websocket.Close c) ≠ None.
Proof. unfold websocket.Close. cbn. by destruct (websocket.writeErr c). Qed.

Lemma perform_writeErr e h :
  websocket.writeErr (conn h) ≠ None → websocket.writeErr (conn (perform e h)) ≠ None.
Proof. unfold perform. destruct e; cbn; try done. intros _. apply close_sticky. Qed.

Ltac wr :=
  repeat match goal with
  | |- context [websocket.write ?mt ?p ?c] =>
      let c' := fresh "c" in
      let res := fresh "res" in
      destruct (websocket.write mt p c) as [c' res]; cbn [fst snd]
  end.

Ltac tr_snoc :=
  rewrite ?failedTexts_snoc, ?removals_snoc, ?sentAfterDone_snoc, ?doneFired_snoc;
  cbn [failedText removal textSent isCloseDone option_list];
  rewrite ?orb_false_r, ?app_nil_r.

(** ** part_000: runs that never return *)

Lemma scanner_step env s t : scannerInv s → scannerInv (Part000.step env s t).
Proof.
  destruct s as [h p l wp d i]. unfold scannerInv, stuck. cbn.
  intros [Hd Hl].
  destruct t; cbn.
  - (* the handler *)
    destruct p; cbn.
    + destruct d; cbn; [|done].
      split; [done|]. destruct l; cbn; intuition congruence.
    + destruct (defers h) as [|e ds] eqn:Hds; cbn.
      * split; [by rewrite Hds|]. destruct l; intuition congruence.
      * unfold unwind1. rewrite Hds. unfold perform. cbn.
        apply failedTexts_cons in Hd as [He Hd]. split; [done|].
        rewrite failedTexts_snoc, He, app_nil_r.
        destruct l; cbn; intuition congruence.
    + done.
  - (* the scanning goroutine *)
    destruct l as [| | |[|line rest]| | |]; cbn; try done.
    + destruct (logs env); hsimpl; cbn; tr_snoc; intuition congruence.
    + hsimpl. wr. cbn. tr_snoc. intuition congruence.
    + hsimpl. destruct (websocket.write _ _ _) as [c [e|]]; cbn; tr_snoc;
        intuition congruence.
    + hsimpl. cbn. tr_snoc. intuition congruence.
    + hsimpl. cbn. tr_snoc. intuition congruence.
  - (* the waiting goroutine *)
    destruct wp; cbn; try done.
    destruct (wait env) as [[e|]|code|]; hsimpl; cbn; tr_snoc; try done.
    all: split; [done|]; destruct l; intuition congruence.
Qed.

Lemma scanner_spawn b env : scannerInv (Part000.spawn b env).
Proof.
  unfold Part000.spawn, startContainer.
  destruct env as [req hsk pl wire nc cr cp st lg ln wt].
  cbn [request handshake payload newClient create copy start wait logs].
  rewrite upgrade_passes.
  unfold scannerInv, stuck.
  destruct hsk as [e|]; [by hsimpl|].
  destruct pl as [text|e]; [|hsimpl; wr; by hsimpl].
  destruct nc as [e|]; [hsimpl; wr; by hsimpl|].
  destruct cr as [id|e]; [|hsimpl; wr; by hsimpl].
  destruct cp as [e|]; [hsimpl; wr; by hsimpl|].
  destruct st as [e|]; [hsimpl; wr; by hsimpl|].
  by hsimpl.
Qed.

Lemma scanner_exec env sched s : scannerInv s → scannerInv (Part000.exec env sched s).
Proof.
  unfold Part000.exec. revert s.
  induction sched as [|t sched IH]; intros s Hs; [done|].
  cbn. apply IH. by apply scanner_step.
Qed.

Lemma noLogs_step env s t e :
  logs env = Failed e → noLogsInv s → noLogsInv (Part000.step env s t).
Proof.
  intros Hlogs.
  destruct s as [h p l wp d i]. unfold noLogsInv, stuck. cbn.
  intros ((-> & -> & Hr) & Hc & Hl).
  destruct t; cbn; [done| |].
  - destruct l as [| | |[|line rest]| | |]; cbn; try done.
    + rewrite Hlogs. hsimpl. cbn. tr_snoc. set_unfold. intuition.
    + hsimpl. wr. cbn. tr_snoc. set_unfold. intuition.
  - destruct wp; cbn; try done.
    destruct (wait env) as [[e'|]|code|]; hsimpl; cbn; tr_snoc; set_unfold; intuition.
Qed.

Lemma noLogs_exec env sched s e :
  logs env = Failed e → noLogsInv s → noLogsInv (Part000.exec env sched s).
Proof.
  intros Hlogs. unfold Part000.exec. revert s.
  induction sched as [|t sched IH]; intros s Hs; [done|].
  cbn. apply IH. by eapply noLogs_step.
Qed.

(** ** C1: cleanup exactly once *)

(** C1, evaluated on part_000.  The session gets its container and
    [ContainerLogs] then fails: the scanning goroutine sends its close
    frame and returns without closing [done] (lines 133-137), so under
    every schedule the handler is still at [<-done], and the deferred
    [ContainerRemove] has not run: the cleanup is invoked zero times. *)
Theorem scanner_logs_failure_never_cleaned_up b req wire text id e lines wt sched :
  let env := mkEnv req None (Ok text) wire None (Ok id) None None (Failed e) lines wt in
  let s := Part000.executeHandler b env sched in
  Docker (docker.ContainerCreate (containerConfig true) true) ∈ trace (Part000.hs s)
  ∧ Part000.pc s = Part000.AtDone
  ∧ Part000.done s = false
  ∧ removals (trace (Part000.hs s)) = [].
Proof.
  intros env s.
  assert (noLogsInv s) as ((? & ? & ?) & ? & _); [|done].
  apply (noLogs_exec env sched _ e); [done|].
  unfold Part000.spawn, startContainer, noLogsInv, stuck. subst env.
  cbn [request handshake payload newClient create copy start wait logs].
  hsimpl. cbn. split; [done|]. split; [|done]. set_unfold. intuition.
Qed.

(** ** C5: a client that disconnects *)

(** C5, evaluated on part_000.  Once a text write has failed, under every
    schedule and for every continuation of it, the handler is still at
    [<-done], [done] is not closed and no [ContainerRemove] has been
    called: the scanning goroutine logs the failure and returns without
    closing [done] (lines 141-144). *)
Theorem scanner_failed_write_never_cleaned_up b env sched :
  let s := Part000.executeHandler b env sched in
  failedTexts (trace (Part000.hs s)) ≠ [] →
  Part000.pc s = Part000.AtDone
  ∧ Part000.done s = false
  ∧ removals (trace (Part000.hs s)) = [].
Proof.
  intros s Hf.
  assert (scannerInv s) as [_ Hi] by apply scanner_exec, scanner_spawn.
  unfold stuck in Hi.
  destruct (Part000.lpc s); intuition congruence.
Qed.

(** The client of [disconnecting] is gone at the first line: after any
    number of further turns of the handler the container is still there. *)
Lemma scanner_failed_write_never_cleaned_up_witness :
  let sched := [Part000.Logger; Part000.Logger; Part000.Logger; Part000.Logger;
                Part000.Waiter; Part000.Main; Part000.Main; Part000.Main] in
  let s := Part000.executeHandler false disconnecting sched in
  failedTexts (trace (Part000.hs s)) = [websocket.JSON "hello"]
  ∧ Part000.pc s = Part000.AtDone
  ∧ Part000.done s = false
  ∧ removals (trace (Part000.hs s)) = [].
Proof.
  intros sched s. split; [reflexivity|].
  apply (scanner_failed_write_never_cleaned_up false disconnecting sched).
  vm_compute. discriminate.
Defined.

(** ** execute.go: after the deadline *)

Lemma deadline_forward buffer line next s :
  deadlineInv s → deadlineInv (ExecuteGo.forward buffer line next s).
Proof.
  destruct s as [h p g d i r bf]. unfold deadlineInv, ExecuteGo.forward. cbn.
  intros (Hq & Hd1 & Hd2 & Hg).
  case_decide; [|done].
  unfold send.
  destruct (doneFired (trace h)) eqn:Hf.
  - (* [done] is closed: the connection refuses the write *)
    assert (websocket.writeErr (conn h) ≠ None) as Hc by (destruct g; intuition congruence).
    destruct (write_refused websocket.TextMessage (websocket.Raw (bf !!! buffer)) (conn h) Hc)
      as [e ->].
    destruct line; hsimpl; cbn; tr_snoc; rewrite ?Hf; cbn; rewrite ?app_nil_r;
      do 3 (split; [done|]); destruct g; intuition congruence.
  - (* [done] is still open *)
    pose proof (write_sticky websocket.TextMessage (websocket.Raw (bf !!! buffer)) (conn h))
      as Hs.
    destruct (websocket.write _ _ _) as [c [e|]]; cbn in Hs;
      destruct line; hsimpl; cbn; tr_snoc; rewrite ?Hf; cbn;
      do 3 (split; [done|]); destruct g; intuition congruence.
Qed.

Lemma deadline_stepMain s : deadlineInv s → deadlineInv (ExecuteGo.stepMain s).
Proof.
  unfold ExecuteGo.stepMain.
  destruct (ExecuteGo.pc s) eqn:Hpc; try (by apply deadline_forward); try done.
  - (* AtStdCopy *)
    destruct (stdcopy.StdCopy _ _ _ _) as [[bufs' reader'] [e|]];
      [|destruct s; unfold deadlineInv; cbn; done].
    case_decide; [destruct s; unfold deadlineInv; cbn; done|].
    destruct s as [h p g d i r bf]. unfold deadlineInv. cbn. hsimpl. tr_snoc.
    intros (Hq & Hd1 & Hd2 & Hg).
    split; [by destruct (doneFired (trace h)); rewrite ?app_nil_r|]. done.
  - (* AtCloseFrame *)
    destruct s as [h p g d i r bf]. unfold deadlineInv. cbn. hsimpl.
    intros (Hq & Hd1 & Hd2 & Hg).
    pose proof (write_sticky websocket.CloseMessage
                  (websocket.Raw (bytes_of (http.StatusText http.StatusInternalServerError)))
                  (conn h)) as Hs.
    destruct (websocket.write _ _ _) as [c res]. cbn in *. tr_snoc.
    split; [by destruct (doneFired (trace h)); rewrite ?app_nil_r|].
    do 2 (split; [done|]). destruct g; intuition congruence.
  - (* Unwinding *)
    destruct s as [h p g d i r bf]. unfold deadlineInv. cbn.
    intros (Hq & Hd1 & Hd2 & Hg).
    destruct (defers h) as [|e ds] eqn:Hds; cbn; [by rewrite Hds|].
    unfold unwind1. rewrite Hds.
    apply omap_textSent_cons in Hd1 as [He Hd1].
    cbn in Hd2. apply orb_false_elim in Hd2 as [He' Hd2].
    pose proof (perform_writeErr e (mkH (w h) (conn h) (trace h) ds)) as Hp.
    unfold perform in *. cbn in *. tr_snoc. rewrite He, ?He'. cbn [option_list].
    rewrite ?orb_false_r, ?app_nil_r.
    split; [by destruct (doneFired (trace h)); rewrite ?app_nil_r|].
    do 2 (split; [done|]). destruct g; intuition congruence.
Qed.

Lemma deadline_stepWait env s :
  wait env = FromCtxDone → deadlineInv s → deadlineInv (ExecuteGo.stepWait env s).
Proof.
  intros Hw. unfold ExecuteGo.stepWait. rewrite Hw.
  destruct s as [h p g d i r bf]. unfold deadlineInv. cbn.
  intros (Hq & Hd1 & Hd2 & Hg).
  destruct g; cbn; try done.
  - hsimpl. cbn. tr_snoc. by rewrite Hg.
  - hsimpl.
    pose proof (write_close_sticky (websocket.Raw (bytes_of (http.StatusText code))) (conn h))
      as Hs.
    destruct (websocket.write _ _ _) as [c res]. cbn in *. tr_snoc. by rewrite Hg.
  - hsimpl. cbn. tr_snoc. by destruct Hg as [-> Hc].
Qed.

Lemma deadline_spawn b env : deadlineInv (ExecuteGo.spawn b env).
Proof.
  unfold ExecuteGo.spawn, ExecuteGo.setup, startContainer.
  destruct env as [req hsk pl wire nc cr cp st lg ln wt].
  cbn [request handshake payload newClient create copy start wait logs].
  rewrite upgrade_passes.
  unfold deadlineInv.
  destruct hsk as [e|]; [by hsimpl|].
  destruct pl as [text|e]; [|hsimpl; wr; by hsimpl].
  destruct nc as [e|]; [hsimpl; wr; by hsimpl|].
  destruct cr as [id|e]; [|hsimpl; wr; by hsimpl].
  destruct cp as [e|]; [hsimpl; wr; by hsimpl|].
  destruct st as [e|]; [hsimpl; wr; by hsimpl|].
  destruct lg as [r|e]; [|hsimpl; wr; by hsimpl].
  by hsimpl.
Qed.

Lemma deadline_exec env sched s :
  wait env = FromCtxDone → deadlineInv s → deadlineInv (ExecuteGo.exec env sched s).
Proof.
  intros Hw. unfold ExecuteGo.exec. revert s.
  induction sched as [|t sched IH]; intros s Hs; [done|].
  cbn. apply IH. destruct t; cbn; [by apply deadline_stepMain|by apply deadline_stepWait].
Qed.

(** ** C6: nothing is forwarded after the deadline *)

(** C6.  In execute.go, when the select of the waiting goroutine takes the
    deadline branch, then under every schedule no text message reaches the
    client after [close(done)]: whatever the trace holds behind
    [CloseDone], it holds no text write that the connection accepted.
    (The goroutine writes its close frame before it closes [done], and a
    connection on which a close frame was written, or a write failed,
    refuses every later write.) *)
Theorem no_text_forwarded_after_deadline b env sched :
  wait env = FromCtxDone →
  ∀ pre post,
    trace (ExecuteGo.hs (ExecuteGo.executeHandler b env sched)) = pre ++ CloseDone :: post →
    ∀ p, WsWrite websocket.TextMessage p None ∉ post.
Proof.
  intros Hw pre post Heq p Hin.
  assert (deadlineInv (ExecuteGo.executeHandler b env sched)) as [Hq _]
    by (by apply deadline_exec, deadline_spawn).
  pose proof (sentAfterDone_nil _ _ _ Hq Heq) as Hpost.
  apply list_elem_of_split in Hin as (l1 & l2 & ->).
  rewrite omap_app in Hpost. by apply app_eq_nil in Hpost as [_ Hpost].
Qed.

(** In [sleeper] the forwarding loop is past its check of [done] when the
    deadline strikes: its write comes after [close(done)] and is refused. *)
Lemma no_text_forwarded_after_deadline_witness :
  let sched := [ExecuteGo.Main; ExecuteGo.Main; ExecuteGo.Waiter; ExecuteGo.Waiter;
                ExecuteGo.Waiter; ExecuteGo.Main; ExecuteGo.Main] in
  let s := ExecuteGo.executeHandler false sleeper sched in
  doneFired (trace (ExecuteGo.hs s)) = true
  ∧ failedTexts (trace (ExecuteGo.hs s)) = [websocket.Raw (bytes_of ("1" +:+ nl))]
  ∧ ∀ pre post,
      trace (ExecuteGo.hs s) = pre ++ CloseDone :: post →
      ∀ p, WsWrite websocket.TextMessage p None ∉ post.
Proof.
  intros sched s. split; [reflexivity|]. split; [reflexivity|].
  apply (no_text_forwarded_after_deadline false sleeper sched). reflexivity.
Defined.

(** ** Close frames and error details *)

Lemma closeFrames_snoc tr e :
  closeFrames (tr ++ [e]) = closeFrames tr ++ option_list (closeFrame e).
Proof. unfold closeFrames. rewrite omap_app. cbn. by destruct (closeFrame e). Qed.

Lemma stream_snoc tr e : stream (tr ++ [e]) = stream tr ++ option_list (written e).
Proof. unfold stream. rewrite omap_app. cbn. by destruct (written e). Qed.

Lemma closeFrames_cons e ds :
  closeFrames (e :: ds) = [] → closeFrame e = None ∧ closeFrames ds = [].
Proof. unfold closeFrames. cbn. by destruct (closeFrame e). Qed.

Lemma phrase_ok tr code :
  closeFrames tr ⊆ statusPhrases →
  code = http.StatusBadRequest ∨ code = http.StatusInternalServerError
    ∨ code = http.StatusRequestTimeout →
  closeFrames tr ++ [websocket.Raw (bytes_of (http.StatusText code))] ⊆ statusPhrases.
Proof.
  intros Htr Hc p Hp. apply elem_of_app in Hp as [Hp|Hp]; [by apply Htr|].
  apply list_elem_of_singleton in Hp as ->.
  unfold statusPhrases. destruct Hc as [-> | [-> | ->]]; cbn.
  - apply list_elem_of_here.
  - apply list_elem_of_further, list_elem_of_here.
  - do 2 apply list_elem_of_further. apply list_elem_of_here.
Qed.

Ltac cf_snoc :=
  rewrite ?closeFrames_snoc, ?stream_snoc;
  cbn [closeFrame written option_list];
  rewrite ?app_nil_r.

Lemma phrasesE_step env s t : phrasesE s → phrasesE (ExecuteGo.step env s t).
Proof.
  destruct s as [h p g d i r bf]. unfold phrasesE. cbn.
  intros (Ht & Hd & Hg).
  destruct t; cbn.
  - destruct p; cbn; try done.
    + destruct (stdcopy.StdCopy _ _ _ _) as [[bufs' reader'] [e|]]; cbn; [|done].
      case_decide; cbn; [done|]. hsimpl. by cf_snoc.
    + hsimpl. wr. cbn. cf_snoc. split; [|done]. apply phrase_ok; auto.
    + unfold ExecuteGo.forward. cbn. case_decide; [|done]. unfold send.
      destruct (websocket.write _ _ _) as [c [e|]]; cbn; hsimpl; cbn; by cf_snoc.
    + unfold ExecuteGo.forward. cbn. case_decide; [|done]. unfold send.
      destruct (websocket.write _ _ _) as [c [e|]]; cbn; hsimpl; cbn; by cf_snoc.
    + destruct (defers h) as [|e ds] eqn:Hds; cbn; [by rewrite Hds|].
      unfold unwind1. rewrite Hds. unfold perform. cbn.
      apply closeFrames_cons in Hd as [He Hd]. cf_snoc. by rewrite He, app_nil_r.
  - destruct g; cbn; try done.
    + destruct (wait env) as [[e|]|code|]; hsimpl; cbn; cf_snoc; auto.
    + hsimpl. wr. cbn. cf_snoc. split; [|done]. apply phrase_ok; [done|]. tauto.
    + hsimpl. cbn. by cf_snoc.
Qed.

Lemma phrasesP_step env s t : phrasesP s → phrasesP (Part000.step env s t).
Proof.
  destruct s as [h p l wp d i]. unfold phrasesP. cbn.
  intros (Ht & Hd).
  destruct t; cbn.
  - destruct p; cbn; try done.
    + by destruct d.
    + destruct (defers h) as [|e ds] eqn:Hds; cbn; [by rewrite Hds|].
      unfold unwind1. rewrite Hds. unfold perform. cbn.
      apply closeFrames_cons in Hd as [He Hd]. cf_snoc. by rewrite He, app_nil_r.
  - destruct l as [| | |[|line rest]| | |]; cbn; try done.
    + destruct (logs env); hsimpl; cbn; by cf_snoc.
    + hsimpl. wr. cbn. cf_snoc. split; [|done]. apply phrase_ok; auto.
    + hsimpl. destruct (websocket.write _ _ _) as [c [e|]]; cbn; by cf_snoc.
    + hsimpl. cbn. by cf_snoc.
    + hsimpl. cbn. by cf_snoc.
  - destruct wp; cbn; try done.
    destruct (wait env) as [[e|]|code|]; hsimpl; cbn; by cf_snoc.
Qed.

Lemma phrases_nil : closeFrames [] ⊆ statusPhrases.
Proof. intros p Hp. by apply elem_of_nil in Hp. Qed.

Ltac phrases_done :=
  hsimpl; wr; hsimpl; cbn; cf_snoc;
  repeat split; try done;
  try (apply (phrase_ok []); [apply phrases_nil|auto]);
  try apply phrases_nil.

Lemma phrasesE_spawn b env : phrasesE (ExecuteGo.spawn b env).
Proof.
  unfold ExecuteGo.spawn, ExecuteGo.setup, startContainer.
  destruct env as [req hsk pl wire nc cr cp st lg ln wt].
  cbn [request handshake payload newClient create copy start wait logs].
  rewrite upgrade_passes.
  unfold phrasesE.
  destruct hsk as [e|]; [by phrases_done|].
  destruct pl as [text|e]; [|by phrases_done].
  destruct nc as [e|]; [by phrases_done|].
  destruct cr as [id|e]; [|by phrases_done].
  destruct cp as [e|]; [by phrases_done|].
  destruct st as [e|]; [by phrases_done|].
  destruct lg as [r|e]; [|by phrases_done].
  by phrases_done.
Qed.

Lemma phrasesP_spawn b env : phrasesP (Part000.spawn b env).
Proof.
  unfold Part000.spawn, startContainer.
  destruct env as [req hsk pl wire nc cr cp st lg ln wt].
  cbn [request handshake payload newClient create copy start wait logs].
  rewrite upgrade_passes.
  unfold phrasesP.
  destruct hsk as [e|]; [by phrases_done|].
  destruct pl as [text|e]; [|by phrases_done].
  destruct nc as [e|]; [by phrases_done|].
  destruct cr as [id|e]; [|by phrases_done].
  destruct cp as [e|]; [by phrases_done|].
  destruct st as [e|]; [by phrases_done|].
  by phrases_done.
Qed.

Lemma scrub_idemp e : scrub (scrub e) = scrub e.
Proof. by destruct e. Qed.

Lemma scrub_EOF e e' : scrub e = scrub e' → (e = EOF ↔ e' = EOF).
Proof. destruct e, e'; cbn; intros; split; congruence. Qed.

Lemma frames_alike fuel dstout dsterr src end1 end2 bufs :
  scrub <$> end1 = scrub <$> end2 →
  ∃ bufs' rest e1 e2,
    stdcopy.frames fuel dstout dsterr src end1 bufs = (bufs', rest, e1)
    ∧ stdcopy.frames fuel dstout dsterr src end2 bufs = (bufs', rest, e2)
    ∧ scrub <$> e1 = scrub <$> e2.
Proof.
  intros Hend. revert src bufs.
  induction fuel as [|fuel IH]; intros src bufs; cbn; [by eauto 10|].
  do 8 (destruct src as [|? src]; [by eauto 10|]).
  destruct (stdcopy.stdType _) as [[]|]; [| | | |by eauto 10];
    case_decide; eauto 10.
Qed.

Lemma StdCopy_alike dstout dsterr r1 r2 bufs :
  scrubReader r1 = scrubReader r2 →
  ∃ bufs' r1' r2' e1 e2,
    stdcopy.StdCopy dstout dsterr r1 bufs = (bufs', r1', e1)
    ∧ stdcopy.StdCopy dstout dsterr r2 bufs = (bufs', r2', e2)
    ∧ scrubReader r1' = scrubReader r2'
    ∧ scrub <$> e1 = scrub <$> e2.
Proof.
  destruct r1 as [p1 end1], r2 as [p2 end2]. unfold scrubReader, stdcopy.StdCopy.
  cbn [stdcopy.pending stdcopy.ending]. intros [= -> Hend].
  destruct (frames_alike (S (length p2)) dstout dsterr p2 end1 end2 bufs Hend)
    as (bufs' & rest & e1 & e2 & -> & -> & He).
  eexists _, _, _, _, _. repeat split; [|done].
  unfold scrubReader. cbn [stdcopy.pending stdcopy.ending]. by rewrite Hend.
Qed.

Lemma alikeE_forward buffer line next s s' :
  alikeE s s' → alikeE (ExecuteGo.forward buffer line next s) (ExecuteGo.forward buffer line next s').
Proof.
  destruct s as [h p g d i r bf], s' as [h' p' g' d' i' r' bf']. unfold alikeE. cbn.
  intros (-> & -> & -> & -> & -> & Hr & Hc & Hd & Hs).
  unfold ExecuteGo.forward. cbn. case_decide; [|done].
  unfold send. rewrite <- Hc.
  destruct (websocket.write _ _ _) as [c [e|]]; cbn;
    destruct line; hsimpl; cbn; cf_snoc; by rewrite ?Hs.
Qed.

Lemma alikeE_stepMain s s' :
  alikeE s s' → alikeE (ExecuteGo.stepMain s) (ExecuteGo.stepMain s').
Proof.
  intros Ha. pose proof Ha as (Hpc & _).
  unfold ExecuteGo.stepMain. rewrite <- Hpc.
  destruct (ExecuteGo.pc s) eqn:Hp; try (by apply alikeE_forward); try done.
  - (* AtSelect *)
    destruct s as [h p g d i r bf], s' as [h' p' g' d' i' r' bf']. unfold alikeE in *. cbn in *.
    destruct Ha as (_ & -> & -> & -> & -> & Hr & Hc & Hd & Hs). done.
  - (* AtStdCopy *)
    destruct s as [h p g d i r bf], s' as [h' p' g' d' i' r' bf']. unfold alikeE in *. cbn in *.
    destruct Ha as (_ & -> & -> & -> & -> & Hr & Hc & Hd & Hs).
    destruct (StdCopy_alike ExecuteGo.stdout ExecuteGo.stderr r r' bf' Hr)
      as (bufs' & r1 & r2 & e1 & e2 & -> & -> & Hr' & He).
    destruct e1 as [e1|], e2 as [e2|]; try done; cbn in He.
    injection He as He. pose proof (scrub_EOF _ _ He) as Heof.
    do 2 case_decide; try tauto; cbn; try done.
    hsimpl. cbn. cf_snoc. done.
  - (* AtCloseFrame *)
    destruct s as [h p g d i r bf], s' as [h' p' g' d' i' r' bf']. unfold alikeE in *. cbn in *.
    destruct Ha as (_ & -> & -> & -> & -> & Hr & Hc & Hd & Hs).
    hsimpl. rewrite <- Hc. wr. cbn. cf_snoc. by rewrite Hs.
  - (* Unwinding *)
    destruct s as [h p g d i r bf], s' as [h' p' g' d' i' r' bf']. unfold alikeE in *. cbn in *.
    destruct Ha as (_ & -> & -> & -> & -> & Hr & Hc & Hd & Hs).
    rewrite <- Hd. destruct (defers h) as [|e ds] eqn:Hds; cbn; [by rewrite Hds, <- Hd|].
    unfold unwind1. rewrite <- Hd, Hds. unfold perform. cbn. cf_snoc. by rewrite Hs, Hc.
Qed.

Lemma scrubRaced_cases r r' :
  scrubRaced r = scrubRaced r' →
  match r, r' with
  | FromErrCh (Some _), FromErrCh (Some _) => True
  | FromErrCh None, FromErrCh None => True
  | FromStatusCh c, FromStatusCh c' => c = c'
  | FromCtxDone, FromCtxDone => True
  | _, _ => False
  end.
Proof. destruct r as [[e|]|c|], r' as [[e'|]|c'|]; cbn; intros; simplify_eq; done. Qed.

Lemma alikeE_stepWait env env' s s' :
  scrubEnv env = scrubEnv env' →
  alikeE s s' → alikeE (ExecuteGo.stepWait env s) (ExecuteGo.stepWait env' s').
Proof.
  intros Henv.
  assert (scrubRaced (wait env) = scrubRaced (wait env')) as Hw
    by (by injection Henv).
  apply scrubRaced_cases in Hw.
  destruct s as [h p g d i r bf], s' as [h' p' g' d' i' r' bf']. unfold alikeE. cbn.
  intros (-> & -> & -> & -> & -> & Hr & Hc & Hd & Hs).
  destruct g'; cbn; try done.
  - destruct (wait env) as [[e|]|c|], (wait env') as [[e'|]|c'|]; try done;
      hsimpl; cbn; cf_snoc; done.
  - hsimpl. rewrite <- Hc. wr. cbn. cf_snoc. by rewrite Hs.
  - hsimpl. cbn. by cf_snoc.
Qed.

Lemma alikeE_exec env env' sched s s' :
  scrubEnv env = scrubEnv env' →
  alikeE s s' → alikeE (ExecuteGo.exec env sched s) (ExecuteGo.exec env' sched s').
Proof.
  intros Henv. unfold ExecuteGo.exec. revert s s'.
  induction sched as [|t sched IH]; intros s s' Hs; [done|].
  cbn. apply IH. destruct t; cbn; [by apply alikeE_stepMain|by apply alikeE_stepWait].
Qed.

Lemma scrub_option_cases (e e' : option error) :
  scrub <$> e = scrub <$> e' →
  match e, e' with
  | Some _, Some _ => True
  | None, None => True
  | _, _ => False
  end.
Proof. by destruct e, e'. Qed.

Lemma scrubResult_cases {A} (r r' : result A) :
  scrubResult r = scrubResult r' →
  match r, r' with
  | Ok a, Ok a' => a = a'
  | Failed _, Failed _ => True
  | _, _ => False
  end.
Proof. destruct r, r'; cbn; intros; simplify_eq; done. Qed.

Lemma scrubLogs_cases (r r' : result stdcopy.Reader) :
  scrubLogs r = scrubLogs r' →
  match r, r' with
  | Ok a, Ok a' => scrubReader a = scrubReader a'
  | Failed _, Failed _ => True
  | _, _ => False
  end.
Proof. destruct r, r'; cbn; try done; intros H; congruence. Qed.

Lemma alikeE_spawn b env env' :
  scrubEnv env = scrubEnv env' → alikeE (ExecuteGo.spawn b env) (ExecuteGo.spawn b env').
Proof.
  destruct env as [req hsk pl net nc cr cp st lg ln wt],
           env' as [req' hsk' pl' net' nc' cr' cp' st' lg' ln' wt'].
  unfold scrubEnv. cbn [request handshake payload newClient create copy start wait logs wire lines].
  intros [= -> Hhsk Hpl -> Hnc Hcr Hcp Hst Hlg -> Hwt].
  apply scrub_option_cases in Hhsk, Hnc, Hcp, Hst.
  apply scrubResult_cases in Hpl, Hcr. apply scrubLogs_cases in Hlg.
  unfold ExecuteGo.spawn, ExecuteGo.setup, startContainer, alikeE.
  cbn [request handshake payload newClient create copy start wait logs wire lines].
  rewrite !upgrade_passes.
  destruct hsk as [e|], hsk' as [e'|]; try done; try (by (hsimpl; wr; hsimpl)); [ ].
  destruct pl as [text|e], pl' as [text'|e']; try done; try (by (hsimpl; wr; hsimpl)); [ ].
  subst text'.
  destruct nc as [e|], nc' as [e'|]; try done; try (by (hsimpl; wr; hsimpl)); [ ].
  destruct cr as [id|e], cr' as [id'|e']; try done; try (by (hsimpl; wr; hsimpl)); [ ].
  subst id'.
  destruct cp as [e|], cp' as [e'|]; try done; try (by (hsimpl; wr; hsimpl)); [ ].
  destruct st as [e|], st' as [e'|]; try done; try (by (hsimpl; wr; hsimpl)); [ ].
  destruct lg as [r|e], lg' as [r'|e']; try done; by (hsimpl; wr; hsimpl).
Qed.

Lemma alikeP_step env env' s s' t :
  scrubEnv env = scrubEnv env' →
  alikeP s s' → alikeP (Part000.step env s t) (Part000.step env' s' t).
Proof.
  intros Henv.
  assert (scrubRaced (wait env) = scrubRaced (wait env')) as Hw by (by injection Henv).
  assert (scrubLogs (logs env) = scrubLogs (logs env')) as Hl by (by injection Henv).
  assert (lines env = lines env') as Hln by (by injection Henv).
  apply scrubRaced_cases in Hw. apply scrubLogs_cases in Hl.
  destruct s as [h p l wp d i], s' as [h' p' l' wp' d' i']. unfold alikeP. cbn.
  intros (-> & -> & -> & -> & -> & Hc & Hd & Hs).
  destruct t; cbn.
  - destruct p'; cbn; try done.
    + by destruct d'.
    + rewrite <- Hd. destruct (defers h) as [|e ds] eqn:Hds; cbn; [by rewrite Hds, <- Hd|].
      unfold unwind1. rewrite <- Hd, Hds. unfold perform. cbn. cf_snoc. by rewrite Hs, Hc.
  - destruct l' as [| | |[|line rest]| | |]; cbn; try done.
    + rewrite <- Hln.
      destruct (logs env) as [r|e], (logs env') as [r'|e']; try done; hsimpl; cbn; by cf_snoc.
    + hsimpl. rewrite <- Hc. wr. cbn. cf_snoc. by rewrite Hs.
    + hsimpl. rewrite <- Hc.
      destruct (websocket.write _ _ _) as [c [e|]]; cbn; cf_snoc; by rewrite Hs.
    + hsimpl. cbn. by cf_snoc.
    + hsimpl. cbn. by cf_snoc.
  - destruct wp'; cbn; try done.
    destruct (wait env) as [[e|]|c|], (wait env') as [[e'|]|c'|]; try done;
      hsimpl; cbn; cf_snoc; done.
Qed.

Lemma alikeP_exec env env' sched s s' :
  scrubEnv env = scrubEnv env' →
  alikeP s s' → alikeP (Part000.exec env sched s) (Part000.exec env' sched s').
Proof.
  intros Henv. unfold Part000.exec. revert s s'.
  induction sched as [|t sched IH]; intros s s' Hs; [done|].
  cbn. apply IH. by apply alikeP_step.
Qed.

Lemma alikeP_spawn b env env' :
  scrubEnv env = scrubEnv env' → alikeP (Part000.spawn b env) (Part000.spawn b env').
Proof.
  destruct env as [req hsk pl net nc cr cp st lg ln wt],
           env' as [req' hsk' pl' net' nc' cr' cp' st' lg' ln' wt'].
  unfold scrubEnv. cbn [request handshake payload newClient create copy start wait logs wire lines].
  intros [= -> Hhsk Hpl -> Hnc Hcr Hcp Hst Hlg -> Hwt].
  apply scrub_option_cases in Hhsk, Hnc, Hcp, Hst.
  apply scrubResult_cases in Hpl, Hcr.
  unfold Part000.spawn, startContainer, alikeP.
  cbn [request handshake payload newClient create copy start wait logs wire lines].
  rewrite !upgrade_passes.
  destruct hsk as [e|], hsk' as [e'|]; try done; try (by (hsimpl; wr; hsimpl)); [ ].
  destruct pl as [text|e], pl' as [text'|e']; try done; try (by (hsimpl; wr; hsimpl)); [ ].
  subst text'.
  destruct nc as [e|], nc' as [e'|]; try done; try (by (hsimpl; wr; hsimpl)); [ ].
  destruct cr as [id|e], cr' as [id'|e']; try done; try (by (hsimpl; wr; hsimpl)); [ ].
  subst id'.
  destruct cp as [e|], cp' as [e'|]; try done; try (by (hsimpl; wr; hsimpl)); [ ].
  destruct st as [e|], st' as [e'|]; try done; by (hsimpl; wr; hsimpl).
Qed.

Lemma phrasesE_exec env sched s : phrasesE s → phrasesE (ExecuteGo.exec env sched s).
Proof.
  unfold ExecuteGo.exec. revert s.
  induction sched as [|t sched IH]; intros s Hs; [done|].
  cbn. apply IH. by apply phrasesE_step.
Qed.

Lemma phrasesP_exec env sched s : phrasesP s → phrasesP (Part000.exec env sched s).
Proof.
  unfold Part000.exec. revert s.
  induction sched as [|t sched IH]; intros s Hs; [done|].
  cbn. apply IH. by apply phrasesP_step.
Qed.

(** ** C8: what the stream tells about a failure *)

(** C8.  In both websocket handlers, under every schedule, every close
    frame written carries one of the three status phrases (Bad Request,
    Internal Server Error, Request Timeout).  And error details never
    reach the stream: two environments that differ in the details of
    their errors only give the same sequence of writes on the connection,
    with the same outcomes, and the same messages delivered to the
    client. *)
Theorem close_frames_carry_status_phrase_only b env sched sched0 :
  let run := λ env, ExecuteGo.hs (ExecuteGo.executeHandler b env sched) in
  let run0 := λ env, Part000.hs (Part000.executeHandler b env sched0) in
  closeFrames (trace (run env)) ⊆ statusPhrases
  ∧ closeFrames (trace (run0 env)) ⊆ statusPhrases
  ∧ ∀ env', scrubEnv env' = scrubEnv env →
      stream (trace (run env')) = stream (trace (run env))
      ∧ websocket.sent (conn (run env')) = websocket.sent (conn (run env))
      ∧ stream (trace (run0 env')) = stream (trace (run0 env))
      ∧ websocket.sent (conn (run0 env')) = websocket.sent (conn (run0 env)).
Proof.
  intros run run0. split; [|split].
  - by apply (phrasesE_exec env sched _ (phrasesE_spawn b env)).
  - by apply (phrasesP_exec env sched0 _ (phrasesP_spawn b env)).
  - intros env' Henv.
    pose proof (alikeE_exec env' env sched _ _ Henv (alikeE_spawn b env' env Henv))
      as (_ & _ & _ & _ & _ & _ & Hc & _ & Hs).
    pose proof (alikeP_exec env' env sched0 _ _ Henv (alikeP_spawn b env' env Henv))
      as (_ & _ & _ & _ & _ & Hc0 & _ & Hs0).
    subst run run0. cbn beta.
    unfold ExecuteGo.executeHandler, Part000.executeHandler.
    by rewrite Hc, Hs, Hc0, Hs0.
Qed.

(** [ContainerCreate] fails in [noImage] and in [noDaemon], with another
    error text; the client sees the same single close frame. *)
Lemma close_frames_carry_status_phrase_only_witness :
  scrubEnv noDaemon = scrubEnv noImage
  ∧ stream (trace (ExecuteGo.hs (ExecuteGo.executeHandler false noImage [])))
    = [(websocket.CloseMessage, websocket.Raw (bytes_of "Internal Server Error"), None)]
  ∧ stream (trace (ExecuteGo.hs (ExecuteGo.executeHandler false noDaemon [])))
    = stream (trace (ExecuteGo.hs (ExecuteGo.executeHandler false noImage []))).
Proof.
  split; [reflexivity|]. split; [reflexivity|].
  apply (close_frames_carry_status_phrase_only false noImage [] []). reflexivity.
Defined.

(** ** execute.go: the cleanup, once *)

Lemma cleanup_forward buffer line next s :
  match next with ExecuteGo.AtStderr | ExecuteGo.AtSelect => True | _ => False end →
  match ExecuteGo.pc s with ExecuteGo.AtStdout | ExecuteGo.AtStderr => True | _ => False end →
  cleanupInv s → cleanupInv (ExecuteGo.forward buffer line next s).
Proof.
  destruct s as [h p g d i r bf]. unfold cleanupInv, ExecuteGo.forward. cbn.
  intros Hn Hp (Hfd & Hpc & Hg).
  assert (removals (trace h) = [] ∧ defers h = deferredCalls i ∧ failedTexts (trace h) = [])
    as (Hr & Hd & Hf) by (by destruct p).
  assert (g ≠ ExecuteGo.Idle) as Hg' by (by destruct p).
  case_decide; [|by destruct next].
  unfold send.
  destruct (websocket.write _ _ _) as [c [e|]]; cbn;
    destruct line; hsimpl; cbn; tr_snoc; rewrite ?Hr, ?Hd, ?Hf; cbn; by destruct next.
Qed.

Lemma cleanup_stepMain s : cleanupInv s → cleanupInv (ExecuteGo.stepMain s).
Proof.
  unfold ExecuteGo.stepMain.
  destruct (ExecuteGo.pc s) eqn:Hpc;
    try (intros; apply cleanup_forward; [done|by rewrite Hpc|done]); try done.
  - (* AtSelect *)
    destruct s as [h p g d i r bf]. unfold cleanupInv. cbn in *. subst p.
    intros (Hfd & (Hr & Hd & Hf) & Hg). by destruct d; cbn; rewrite ?Hr, ?Hd.
  - (* AtStdCopy *)
    destruct s as [h p g d i r bf]. unfold cleanupInv. cbn in *. subst p.
    intros (Hfd & (Hr & Hd & Hf) & Hg).
    destruct (stdcopy.StdCopy _ _ _ _) as [[bufs' reader'] [e|]]; cbn; [|done].
    case_decide; cbn; [by rewrite ?Hr, ?Hd|].
    hsimpl. cbn. by tr_snoc.
  - (* AtCloseFrame *)
    destruct s as [h p g d i r bf]. unfold cleanupInv. cbn in *. subst p.
    intros (Hfd & (Hr & Hd & Hf) & Hg).
    hsimpl. wr. cbn. tr_snoc. by rewrite Hr, Hd.
  - (* Unwinding *)
    destruct s as [h p g d i r bf]. unfold cleanupInv. cbn in *. subst p.
    intros (Hfd & (Hr & Hl) & Hg).
    destruct (defers h) as [|e ds] eqn:Hds; cbn.
    + rewrite Hds. rewrite app_nil_r in Hr. split; [done|]. split; [|done]. split; [done|].
      by right.
    + unfold unwind1. rewrite Hds. unfold perform. cbn. tr_snoc.
      apply failedTexts_cons in Hfd as [He Hfd].
      split; [done|]. split; [|done]. split; [|cbn in Hl; lia].
      rewrite <- Hr. unfold removals. cbn. destruct (removal e); cbn; by rewrite <- ?app_assoc.
Qed.

Lemma cleanup_stepWait env s : cleanupInv s → cleanupInv (ExecuteGo.stepWait env s).
Proof.
  destruct s as [h p g d i r bf]. unfold cleanupInv, ExecuteGo.stepWait. cbn.
  intros (Hfd & Hpc & Hg).
  destruct g; cbn; try done.
  - destruct (wait env) as [[e|]|c|]; hsimpl; cbn; tr_snoc; (split; [done|]);
      (split; [|by destruct p]); destruct p; intuition congruence.
  - hsimpl. wr. cbn. tr_snoc. split; [done|].
    split; [|by destruct p]. destruct p; intuition congruence.
  - hsimpl. cbn. tr_snoc. split; [done|].
    split; [|by destruct p]. destruct p; intuition congruence.
Qed.

Lemma cleanup_spawn b env : cleanupInv (ExecuteGo.spawn b env).
Proof.
  unfold ExecuteGo.spawn, ExecuteGo.setup, startContainer.
  destruct env as [req hsk pl net nc cr cp st lg ln wt].
  cbn [request handshake payload newClient create copy start wait logs].
  rewrite upgrade_passes.
  unfold cleanupInv.
  destruct hsk as [e|]; [hsimpl; cbn; intuition (auto with lia)|].
  destruct pl as [text|e]; [|hsimpl; wr; hsimpl; cbn; intuition (auto with lia)].
  destruct nc as [e|]; [hsimpl; wr; hsimpl; cbn; intuition (auto with lia)|].
  destruct cr as [id|e]; [|hsimpl; wr; hsimpl; cbn; intuition (auto with lia)].
  destruct cp as [e|]; [hsimpl; wr; hsimpl; cbn; intuition (auto with lia)|].
  destruct st as [e|]; [hsimpl; wr; hsimpl; cbn; intuition (auto with lia)|].
  destruct lg as [r|e]; [|hsimpl; wr; hsimpl; cbn; intuition (auto with lia)].
  hsimpl. cbn. done.
Qed.

Lemma cleanup_exec env sched s : cleanupInv s → cleanupInv (ExecuteGo.exec env sched s).
Proof.
  unfold ExecuteGo.exec. revert s.
  induction sched as [|t sched IH]; intros s Hs; [done|].
  cbn. apply IH. destruct t; cbn; [by apply cleanup_stepMain|by apply cleanup_stepWait].
Qed.

Lemma returned_stays env n s :
  ExecuteGo.pc s = ExecuteGo.Returned →
  ExecuteGo.exec env (replicate n ExecuteGo.Main) s = s.
Proof.
  intros Hpc. induction n as [|n IH]; [done|].
  cbn. unfold ExecuteGo.stepMain. by rewrite Hpc.
Qed.

Lemma unwinding_returns env n s :
  ExecuteGo.pc s = ExecuteGo.Unwinding →
  (length (defers (ExecuteGo.hs s)) ≤ n)%nat →
  ExecuteGo.pc (ExecuteGo.exec env (replicate (S n) ExecuteGo.Main) s) = ExecuteGo.Returned.
Proof.
  revert s. induction n as [|n IH]; intros s Hpc Hlen.
  - cbn. unfold ExecuteGo.stepMain. rewrite Hpc.
    destruct (defers (ExecuteGo.hs s)); [done|cbn in Hlen; lia].
  - change (ExecuteGo.exec env (replicate (S (S n)) ExecuteGo.Main) s)
      with (ExecuteGo.exec env (replicate (S n) ExecuteGo.Main) (ExecuteGo.stepMain s)).
    destruct (defers (ExecuteGo.hs s)) as [|e ds] eqn:Hds.
    + rewrite (returned_stays env (S n)); unfold ExecuteGo.stepMain; by rewrite Hpc, Hds.
    + apply IH; unfold ExecuteGo.stepMain; rewrite Hpc, Hds; [done|].
      destruct s as [h p g d i r bf]. cbn in *.
      unfold unwind1. rewrite Hds. cbn. lia.
Qed.

(** X5.  execute.go: the cleanup never runs twice, and has run exactly
    once, with force, when the handler of a started session has
    returned. *)
Lemma deadline_handler_cleans_up_once b env sched :
  let s := ExecuteGo.executeHandler b env sched in
  (length (removals (trace (ExecuteGo.hs s))) ≤ 1)%nat
  ∧ (ExecuteGo.pc s = ExecuteGo.Returned → ExecuteGo.gpc s ≠ ExecuteGo.Idle →
     removals (trace (ExecuteGo.hs s)) = [(ExecuteGo.id s, true)]).
Proof.
  intros s.
  assert (cleanupInv s) as (_ & Hpc & _) by apply cleanup_exec, cleanup_spawn.
  destruct (ExecuteGo.pc s).
  1-5: destruct Hpc as (-> & _); split; [cbn; lia|done].
  - destruct Hpc as [Hr _]. apply (f_equal length) in Hr.
    rewrite length_app in Hr. cbn in Hr. split; [lia|done].
  - destruct Hpc as [_ [(? & ? & _)|(? & ->)]]; [done|]. cbn. split; [lia|done].
Qed.

Lemma gpc_stepMain s : ExecuteGo.gpc (ExecuteGo.stepMain s) = ExecuteGo.gpc s.
Proof.
  unfold ExecuteGo.stepMain, ExecuteGo.forward, send.
  destruct s as [h p g d i r bf]. cbn.
  destruct p; cbn; try done.
  - destruct (stdcopy.StdCopy _ _ _ _) as [[? ?] [e|]]; [|done]. by case_decide.
  - case_decide; [|done]. by destruct (websocket.write _ _ _) as [c [e|]].
  - case_decide; [|done]. by destruct (websocket.write _ _ _) as [c [e|]].
  - by destruct (defers h).
Qed.

Lemma gpc_main_turns env n s :
  ExecuteGo.gpc (ExecuteGo.exec env (replicate n ExecuteGo.Main) s) = ExecuteGo.gpc s.
Proof.
  revert s. induction n as [|n IH]; intros s; [done|].
  change (ExecuteGo.exec env (replicate (S n) ExecuteGo.Main) s)
    with (ExecuteGo.exec env (replicate n ExecuteGo.Main) (ExecuteGo.stepMain s)).
  by rewrite IH, gpc_stepMain.
Qed.

(** X6.  execute.go: once a text write has failed, the loop is over, and
    seven turns of the handler's goroutine later the handler has returned
    and the container is removed, with force, once. *)
Lemma deadline_handler_survives_disconnect b env sched :
  let s := ExecuteGo.executeHandler b env sched in
  failedTexts (trace (ExecuteGo.hs s)) ≠ [] →
  let s' := ExecuteGo.exec env (replicate 7 ExecuteGo.Main) s in
  (ExecuteGo.pc s = ExecuteGo.Unwinding ∨ ExecuteGo.pc s = ExecuteGo.Returned)
  ∧ ExecuteGo.pc s' = ExecuteGo.Returned
  ∧ removals (trace (ExecuteGo.hs s')) = [(ExecuteGo.id s', true)].
Proof.
  intros s Hf s'.
  assert (cleanupInv s) as Hs by apply cleanup_exec, cleanup_spawn.
  assert (cleanupInv s') as Hs' by by apply cleanup_exec.
  assert (ExecuteGo.gpc s ≠ ExecuteGo.Idle ∧ ExecuteGo.pc s' = ExecuteGo.Returned
          ∧ (ExecuteGo.pc s = ExecuteGo.Unwinding ∨ ExecuteGo.pc s = ExecuteGo.Returned))
    as (Hg & Hpc & Hor).
  { destruct Hs as (_ & Hpc & Hg). subst s'.
    destruct (ExecuteGo.pc s) eqn:Hp.
    1-5: by destruct Hpc as (_ & _ & ?).
    - split; [done|]. split; [apply unwinding_returns; [done|apply Hpc]|by left].
    - rewrite (returned_stays env 7 s Hp).
      destruct Hpc as [_ [(_ & _ & ?)|(? & _)]]; [done|]. by split; [|split; [|right]]. }
  split; [done|]. split; [done|].
  destruct Hs' as (_ & Hpc' & _). rewrite Hpc in Hpc'.
  destruct Hpc' as [_ [(Hidle & _)|(_ & ?)]]; [|done].
  subst s'. by rewrite gpc_main_turns in Hidle.
Qed.

(** ** part_001: every path of the synchronous handler *)

Ltac sync_paths env :=
  unfold Part001.serve, runHandler, Part001.executeHandler;
  destruct env as [req hsk pl net nc cr cp st lg ln wt];
  cbn [payload newClient create copy start wait logs].

Lemma Encode_strings (m : gmap string string) (w : http.ResponseWriter) :
  json.Encode (json.String <$> m) w = http.Write (http.Json m) w.
Proof.
  unfold json.Encode, json.Marshal.
  rewrite bool_decide_eq_true_2.
  - replace (omap json.unstring (json.String <$> m)) with m; [done|].
    apply map_eq. intros k. rewrite lookup_omap, lookup_fmap. by destruct (m !! k).
  - apply map_Forall_fmap. by intros k v _.
Qed.

Lemma errorResponse_status b status text :
  http.statusCode (errorResponse (http.fresh b) status (json.String text)) = 200.
Proof. apply errorResponse_fresh. Qed.

(** X2.  The synchronous handler answers every request with status 200:
    whatever fails, no other status line reaches the client. *)
Theorem sync_status_always_200 b env :
  http.statusCode (w (Part001.serve b env)) = 200.
Proof.
  sync_paths env.
  destruct pl as [text|e]; [|hsimpl; unwinding; apply errorResponse_status].
  destruct nc as [e|]; [hsimpl; unwinding; apply errorResponse_status|].
  destruct cr as [id|e]; [|hsimpl; unwinding; apply errorResponse_status].
  destruct cp as [e|]; [hsimpl; unwinding; apply errorResponse_status|].
  destruct st as [e|]; [hsimpl; unwinding; apply errorResponse_status|].
  destruct wt as [[e|]|code|]; try (hsimpl; unwinding; apply errorResponse_status).
  all: destruct lg as [r|e]; [|hsimpl; unwinding; apply errorResponse_status]; hsimpl.
  all: destruct (stdcopy.StdCopy 0 0 r ∅) as [[bufs r'] [e|]];
    [hsimpl; unwinding; apply errorResponse_status|].
  all: hsimpl; rewrite Encode_strings; by destruct b.
Qed.

Lemma errorResponse_body status text :
  http.body (errorResponse (http.fresh false) status (json.String text))
  = [http.Json {[ "error" := text ]}].
Proof. apply (errorResponse_fresh false). Qed.

(** X3.  When the client can be written to, the synchronous handler
    writes exactly one JSON document per request: the success object with
    the fields status and output, or an error envelope with the single
    field error. *)
Theorem sync_one_answer env :
  let s := Part001.serve false env in
  (∃ out, http.body (w s) = [http.Json {[ "status" := "success"; "output" := out ]}])
  ∨ (∃ msg, http.body (w s) = [http.Json {[ "error" := msg ]}]).
Proof.
  sync_paths env.
  destruct pl as [text|e]; [|hsimpl; unwinding; right; eexists; apply errorResponse_body].
  destruct nc as [e|]; [hsimpl; unwinding; right; eexists; apply errorResponse_body|].
  destruct cr as [id|e]; [|hsimpl; unwinding; right; eexists; apply errorResponse_body].
  destruct cp as [e|]; [hsimpl; unwinding; right; eexists; apply errorResponse_body|].
  destruct st as [e|]; [hsimpl; unwinding; right; eexists; apply errorResponse_body|].
  destruct wt as [[e|]|code|];
    try (hsimpl; unwinding; right; eexists; apply errorResponse_body).
  all: destruct lg as [r|e]; [|hsimpl; unwinding; right; eexists; apply errorResponse_body];
    hsimpl.
  all: destruct (stdcopy.StdCopy 0 0 r ∅) as [[bufs r'] [e|]];
    [hsimpl; unwinding; right; eexists; apply errorResponse_body|].
  all: hsimpl; rewrite Encode_strings; cbn; left; by eexists.
Qed.



(** ** The HTTP response in the websocket handlers *)







(** ** part_000: lines are forwarded in order *)

Lemma textWrites_snoc tr e :
  textWrites (tr ++ [e]) = textWrites tr ++ option_list (textWrite e).
Proof. unfold textWrites. rewrite omap_app. cbn. by destruct (textWrite e). Qed.

Lemma textSent_snoc tr e :
  omap textSent (tr ++ [e]) = omap textSent tr ++ option_list (textSent e).
Proof. rewrite omap_app. cbn. by destruct (textSent e). Qed.

Lemma textWrites_cons e ds :
  textWrites (e :: ds) = [] → textWrite e = None ∧ textWrites ds = [].
Proof. unfold textWrites. cbn. by destruct (textWrite e). Qed.

Lemma textWrite_textSent e : textWrite e = None → textSent e = None.
Proof. by destruct e as [| | |[] ? []| | | | |]. Qed.

Lemma textWrites_nil_sent tr : textWrites tr = [] → omap textSent tr = [].
Proof.
  induction tr as [|e tr IH]; [done|].
  intros [He Htr]%textWrites_cons. cbn. by rewrite (textWrite_textSent e He), IH.
Qed.

Ltac tw_snoc :=
  rewrite ?textWrites_snoc, ?textSent_snoc;
  cbn [textWrite textSent option_list];
  rewrite ?app_nil_r.

Lemma prefix_written (written : list websocket.payload) line rest (all : list string) :
  written ++ (websocket.JSON <$> line :: rest) = websocket.JSON <$> all →
  ∃ n, written ++ [websocket.JSON line] = websocket.JSON <$> take n all.
Proof.
  intros Heq. exists (S (length written)).
  assert (written ++ [websocket.JSON line] ++ (websocket.JSON <$> rest)
          = websocket.JSON <$> all) as Heq' by done.
  rewrite app_assoc in Heq'.
  rewrite fmap_take, <- Heq'.
  rewrite take_app_length'; [done|]. rewrite length_app. cbn. lia.
Qed.

Lemma forwarding_step env s t : forwardingInv env s → forwardingInv env (Part000.step env s t).
Proof.
  destruct s as [h p l wp d i]. unfold forwardingInv. cbn.
  intros [Hd Hl].
  destruct t; cbn.
  - (* the handler *)
    destruct p; cbn.
    + by destruct d.
    + destruct (defers h) as [|e ds] eqn:Hds; cbn; [by rewrite Hds|].
      unfold unwind1. rewrite Hds. unfold perform. cbn.
      apply textWrites_cons in Hd as [He Hd]. split; [done|].
      tw_snoc. rewrite He, (textWrite_textSent e He). cbn [option_list].
      rewrite !app_nil_r. exact Hl.
    + done.
  - (* the scanning goroutine *)
    destruct l as [| | |[|line rest]| | |]; cbn; try done.
    + destruct (logs env); hsimpl; cbn; tw_snoc; [|done].
      destruct Hl as [Hl ->]. by rewrite (textWrites_nil_sent _ Hl), Hl.
    + hsimpl. wr. cbn. tw_snoc. destruct Hl as [-> ->].
      split; [done|]. split; [by exists 0%nat|done].
    + destruct Hl as (Hl & Ha & ->). rewrite fmap_nil, app_nil_r in Hl. done.
    + destruct Hl as (Hl & Ha & ->). hsimpl.
      destruct (websocket.write _ _ _) as [c [e|]]; cbn; tw_snoc.
      * split; [done|]. split; [by eapply prefix_written|done].
      * split; [done|]. rewrite Ha. split; [|done]. by rewrite <- app_assoc.
    + destruct Hl as (Hl & Ha & ->). hsimpl. cbn. tw_snoc.
      split; [done|]. split; [|by rewrite Ha].
      exists (length (lines env)). by rewrite take_ge.
    + hsimpl. cbn. tw_snoc. done.
  - (* the waiting goroutine *)
    destruct wp; cbn; try done.
    destruct (wait env) as [[e|]|code|]; hsimpl; cbn; tw_snoc; done.
Qed.

Lemma forwarding_spawn b env : forwardingInv env (Part000.spawn b env).
Proof.
  unfold Part000.spawn, startContainer.
  destruct env as [req hsk pl net nc cr cp st lg ln wt].
  cbn [request handshake payload newClient create copy start wait logs lines].
  rewrite upgrade_passes.
  unfold forwardingInv.
  destruct hsk as [e|]; [by hsimpl|].
  destruct pl as [text|e]; [|hsimpl; wr; by hsimpl].
  destruct nc as [e|]; [hsimpl; wr; by hsimpl|].
  destruct cr as [id|e]; [|hsimpl; wr; by hsimpl].
  destruct cp as [e|]; [hsimpl; wr; by hsimpl|].
  destruct st as [e|]; [hsimpl; wr; by hsimpl|].
  by hsimpl.
Qed.

Lemma forwarding_exec env sched s :
  forwardingInv env s → forwardingInv env (Part000.exec env sched s).
Proof.
  unfold Part000.exec. revert s.
  induction sched as [|t sched IH]; intros s Hs; [done|].
  cbn. apply IH. by apply forwarding_step.
Qed.

(** X8.  part_000 forwards the scanner's lines in order, each once and
    none skipped: under every schedule the text messages written so far
    are a prefix of the lines; and once [done] is closed, every line has
    been accepted by the connection. *)
Theorem scanner_forwards_lines_in_order b env sched :
  let s := Part000.executeHandler b env sched in
  (∃ n, textWrites (trace (Part000.hs s)) = websocket.JSON <$> take n (lines env))
  ∧ (Part000.done s = true →
     omap textSent (trace (Part000.hs s)) = websocket.JSON <$> lines env).
Proof.
  intros s.
  assert (forwardingInv env s) as [_ Hi] by apply forwarding_exec, forwarding_spawn.
  destruct (Part000.lpc s) as [| | |rest| | |].
  1-3: destruct Hi as [Ht Hd]; split; [exists 0%nat; by rewrite Ht|by rewrite Hd].
  - destruct Hi as (Ht & Ha & Hd). split; [|by rewrite Hd].
    exists (length (textWrites (trace (Part000.hs s)))).
    rewrite fmap_take, <- Ht. by rewrite take_app_length.
  - destruct Hi as (Ht & Ha & Hd). split; [|by rewrite Hd].
    exists (length (lines env)). by rewrite take_ge.
  - done.
  - done.
Qed.


(** ** part_000: the cleanup, when the handler gets to it *)

Lemma cleanupP_step env s t : cleanupInvP s → cleanupInvP (Part000.step env s t).
Proof.
  destruct s as [h p l wp d i]. unfold cleanupInvP. cbn.
  destruct t; cbn.
  - (* the handler *)
    destruct p; cbn.
    + destruct d; cbn; [|done]. intros (Hr & Hd & Hl). by rewrite Hr, Hd.
    + intros (Hr & Hlen & Hl).
      destruct (defers h) as [|e ds] eqn:Hds; cbn.
      * rewrite Hds. rewrite app_nil_r in Hr. split; [done|]. by right.
      * unfold unwind1. rewrite Hds. unfold perform. cbn. tr_snoc.
        split; [|cbn in Hlen; split; [lia|done]].
        rewrite <- Hr. unfold removals. cbn. destruct (removal e); cbn; by rewrite <- ?app_assoc.
    + done.
  - (* the scanning goroutine *)
    destruct l as [| | |[|line rest]| | |]; cbn; try done.
    + destruct (logs env); hsimpl; cbn; tr_snoc; destruct p; intuition congruence.
    + hsimpl. wr. cbn. tr_snoc. destruct p; intuition congruence.
    + destruct p; intuition congruence.
    + hsimpl. destruct (websocket.write _ _ _) as [c [e|]]; cbn; tr_snoc;
        destruct p; intuition congruence.
    + hsimpl. cbn. tr_snoc. destruct p; intuition congruence.
    + hsimpl. cbn. tr_snoc. destruct p; intuition congruence.
  - (* the waiting goroutine *)
    destruct wp; cbn; try done.
    destruct (wait env) as [[e|]|code|]; hsimpl; cbn; tr_snoc; done.
Qed.

Lemma cleanupP_spawn b env : cleanupInvP (Part000.spawn b env).
Proof.
  unfold Part000.spawn, startContainer.
  destruct env as [req hsk pl net nc cr cp st lg ln wt].
  cbn [request handshake payload newClient create copy start wait logs].
  rewrite upgrade_passes.
  unfold cleanupInvP.
  destruct hsk as [e|]; [hsimpl; cbn; intuition (auto with lia)|].
  destruct pl as [text|e]; [|hsimpl; wr; hsimpl; cbn; intuition (auto with lia)].
  destruct nc as [e|]; [hsimpl; wr; hsimpl; cbn; intuition (auto with lia)|].
  destruct cr as [id|e]; [|hsimpl; wr; hsimpl; cbn; intuition (auto with lia)].
  destruct cp as [e|]; [hsimpl; wr; hsimpl; cbn; intuition (auto with lia)|].
  destruct st as [e|]; [hsimpl; wr; hsimpl; cbn; intuition (auto with lia)|].
  hsimpl. cbn. done.
Qed.

Lemma cleanupP_exec env sched s : cleanupInvP s → cleanupInvP (Part000.exec env sched s).
Proof.
  unfold Part000.exec. revert s.
  induction sched as [|t sched IH]; intros s Hs; [done|].
  cbn. apply IH. by apply cleanupP_step.
Qed.

Lemma returned_staysP env n s :
  Part000.pc s = Part000.Returned →
  Part000.exec env (replicate n Part000.Main) s = s.
Proof.
  intros Hpc. induction n as [|n IH]; [done|].
  cbn. unfold Part000.stepMain. by rewrite Hpc.
Qed.

Lemma unwinding_returnsP env n s :
  Part000.pc s = Part000.Unwinding →
  (length (defers (Part000.hs s)) ≤ n)%nat →
  Part000.pc (Part000.exec env (replicate (S n) Part000.Main) s) = Part000.Returned.
Proof.
  revert s. induction n as [|n IH]; intros s Hpc Hlen.
  - cbn. unfold Part000.stepMain. rewrite Hpc.
    destruct (defers (Part000.hs s)); [done|cbn in Hlen; lia].
  - change (Part000.exec env (replicate (S (S n)) Part000.Main) s)
      with (Part000.exec env (replicate (S n) Part000.Main) (Part000.stepMain s)).
    destruct (defers (Part000.hs s)) as [|e ds] eqn:Hds.
    + rewrite (returned_staysP env (S n)); unfold Part000.stepMain; by rewrite Hpc, Hds.
    + apply IH; unfold Part000.stepMain; rewrite Hpc, Hds; [done|].
      destruct s as [h p l wp d i]. cbn in *.
      unfold unwind1. rewrite Hds. cbn. lia.
Qed.

Lemma lpc_main_turns env n s :
  Part000.lpc (Part000.exec env (replicate n Part000.Main) s) = Part000.lpc s.
Proof.
  revert s. induction n as [|n IH]; intros s; [done|].
  change (Part000.exec env (replicate (S n) Part000.Main) s)
    with (Part000.exec env (replicate n Part000.Main) (Part000.stepMain s)).
  rewrite IH. unfold Part000.stepMain. destruct s as [h p l wp d i]. cbn.
  destruct p; cbn; [by destruct d|by destruct (defers h)|done].
Qed.

(** X9.  part_000 never calls the cleanup twice; and once [done] is
    closed, six turns of the handler's goroutine later the handler has
    returned and the container is removed, with force, exactly once. *)
Theorem scanner_handler_cleans_up_when_done b env sched :
  let s := Part000.executeHandler b env sched in
  (length (removals (trace (Part000.hs s))) ≤ 1)%nat
  ∧ (Part000.done s = true →
     let s' := Part000.exec env (replicate 6 Part000.Main) s in
     Part000.pc s' = Part000.Returned
     ∧ removals (trace (Part000.hs s')) = [(Part000.id s', true)]).
Proof.
  intros s.
  assert (cleanupInvP s) as Hs by apply cleanupP_exec, cleanupP_spawn.
  split.
  - unfold cleanupInvP in Hs. destruct (Part000.pc s).
    + destruct Hs as (-> & _). cbn. lia.
    + destruct Hs as (Hr & _). apply (f_equal length) in Hr.
      rewrite length_app in Hr. cbn in Hr. lia.
    + destruct Hs as [_ [(_ & _ & ?)|(_ & ->)]]; [done|cbn; lia].
  - intros Hdone s'.
    assert (cleanupInvP s') as Hs' by by apply cleanupP_exec.
    assert (Part000.lpc s ≠ Part000.LIdle ∧ Part000.pc s' = Part000.Returned) as [Hl Hpc].
    { subst s'. unfold cleanupInvP in Hs. destruct (Part000.pc s) eqn:Hp.
      - destruct Hs as (Hr & Hd & Hl). split; [done|].
        change (Part000.exec env (replicate 6 Part000.Main) s)
          with (Part000.exec env (replicate 5 Part000.Main) (Part000.stepMain s)).
        apply unwinding_returnsP; unfold Part000.stepMain; rewrite Hp, Hdone; [done|].
        destruct s as [h p l wp d i]. cbn in *. rewrite Hd. cbn. lia.
      - destruct Hs as (Hr & Hlen & Hl). split; [done|].
        change (Part000.exec env (replicate 6 Part000.Main) s)
          with (Part000.exec env (replicate 5 Part000.Main) (Part000.stepMain s)).
        unfold Part000.stepMain. rewrite Hp.
        destruct (defers (Part000.hs s)) as [|e ds] eqn:Hds.
        + by rewrite returned_staysP.
        + apply unwinding_returnsP; [done|].
          destruct s as [h p l wp d i]. cbn in *. unfold unwind1. rewrite Hds. cbn. lia.
      - rewrite (returned_staysP env 6 s Hp).
        destruct Hs as [_ [(_ & Hd & _)|(? & _)]]; [congruence|done]. }
    split; [done|].
    unfold cleanupInvP in Hs'. rewrite Hpc in Hs'.
    destruct Hs' as [_ [(Hidle & _)|(_ & ?)]]; [|done].
    subst s'. by rewrite lpc_main_turns in Hidle.
Qed.


(** A session whose two lines are both accepted. *)
Lemma scanner_handler_cleans_up_when_done_witness :
  let env := mkEnv (websocket.mkRequest "sandbox" None) None (Ok "package main") [] None
               (Ok "c0") None None (Ok (stdcopy.mkReader [] None)) ["hello"; "world"]
               (FromStatusCh 0) in
  let sched := replicate 5 Part000.Logger in
  let s := Part000.executeHandler false env sched in
  Part000.done s = true
  ∧ Part000.pc s = Part000.AtDone
  ∧ let s' := Part000.exec env (replicate 6 Part000.Main) s in
    Part000.pc s' = Part000.Returned
    ∧ removals (trace (Part000.hs s')) = [(Part000.id s', true)].
Proof.
  intros env sched s. split; [reflexivity|]. split; [reflexivity|].
  apply (scanner_handler_cleans_up_when_done false env sched). reflexivity.
Defined.

(** ** middleware.go: the logging wrapper *)

Lemma errorHandler_serve text status w :
  middleware.serve (errorHandler text) w = errorResponse w status (json.String text).
Proof.
  unfold errorResponse, json.Encode. rewrite Marshal_error. cbn.
  by destruct (http.Write _ w) as [w' [e|]].
Qed.

Lemma wrapped_SetHeader k v rw w :
  seen (middleware.ResponseWriter rw) = seen w → inStep rw →
  seen (middleware.ResponseWriter (middleware.SetHeader k v rw)) = seen (http.SetHeader k v w)
  ∧ inStep (middleware.SetHeader k v rw).
Proof.
  destruct rw as [[c hw hd bd calls br] rc rhw], w as [c' hw' hd' bd' calls' br'].
  unfold seen, inStep. cbn. intros [= -> -> -> -> ->] [-> ->]. done.
Qed.

Lemma wrapped_WriteHeader code rw w :
  seen (middleware.ResponseWriter rw) = seen w → inStep rw →
  seen (middleware.ResponseWriter (middleware.WriteHeader code rw))
  = seen (http.WriteHeader code w)
  ∧ inStep (middleware.WriteHeader code rw).
Proof.
  destruct rw as [[c hw hd bd calls br] rc rhw], w as [c' hw' hd' bd' calls' br'].
  unfold seen, inStep, middleware.WriteHeader, http.WriteHeader, http.commit. cbn.
  intros [= -> -> -> -> ->] [-> ->]. by destruct hw'.
Qed.

Lemma wrapped_Write p rw w :
  seen (middleware.ResponseWriter rw) = seen w → inStep rw →
  seen (middleware.ResponseWriter (fst (middleware.Write p rw))) = seen (fst (http.Write p w))
  ∧ snd (middleware.Write p rw) = snd (http.Write p w)
  ∧ inStep (fst (middleware.Write p rw)).
Proof.
  destruct rw as [[c hw hd bd calls br] rc rhw], w as [c' hw' hd' bd' calls' br'].
  unfold seen, inStep, middleware.Write, middleware.WriteHeader, http.Write, http.WriteHeader,
    http.commit. cbn.
  intros [= -> -> -> -> ->] [-> ->]. by destruct hw', br'.
Qed.

(** The wrapper is transparent, and what it records is what was sent. *)
Lemma wrapped_serve next rw w :
  seen (middleware.ResponseWriter rw) = seen w → inStep rw →
  seen (middleware.ResponseWriter (middleware.serveWrapped next rw))
  = seen (middleware.serve next w)
  ∧ inStep (middleware.serveWrapped next rw).
Proof.
  revert rw w. induction next as [|k v next IH|code next IH|p onOk IHok onErr IHerr];
    intros rw w Hseen Hstep; cbn.
  - done.
  - destruct (wrapped_SetHeader k v rw w Hseen Hstep). by apply IH.
  - destruct (wrapped_WriteHeader code rw w Hseen Hstep). by apply IH.
  - destruct (wrapped_Write p rw w Hseen Hstep) as (Hs & He & Hi).
    destruct (middleware.Write p rw) as [rw' e], (http.Write p w) as [w' e']. cbn in *.
    subst e'. destruct e; [by apply IHerr|by apply IHok].
Qed.

(** X10.  [logRequest] around any handler, on a response whose header is
    not yet out: the client gets what it would get from the handler alone,
    and the log line shows the status the client received, at level ERROR
    exactly from 400 on. *)
Theorem logRequest_logs_the_status_sent next w :
  http.headerWritten w = false → http.statusCode w = http.StatusOK →
  let '(w', (level, status)) := middleware.logRequest next w in
  seen w' = seen (middleware.serve next w)
  ∧ status = http.statusCode w'
  ∧ (level = "[ERROR]" ↔ 400 ≤ http.statusCode w')
  ∧ (level = "[INFO]" ↔ http.statusCode w' < 400).
Proof.
  intros Hhw Hc. unfold middleware.logRequest.
  destruct (wrapped_serve next (middleware.mkResponseWriter w http.StatusOK false) w)
    as [Hseen [_ Hstep]]; [done|by split|].
  split; [done|]. split; [done|]. rewrite <- Hstep.
  case_decide; split; split; (done || lia).
Qed.

(** A handler that answers 404. *)
Lemma logRequest_logs_the_status_sent_witness :
  middleware.logRequest
    (middleware.ThenWriteHeader 404 (middleware.ThenWrite (http.Text "not found")
       middleware.Finish middleware.Finish))
    (http.fresh false)
  = (http.mkRW 404 true ∅ [http.Text "not found"] [404] false, ("[ERROR]", 404))
  ∧ let '(w', (level, status)) :=
      middleware.logRequest
        (middleware.ThenWriteHeader 404 (middleware.ThenWrite (http.Text "not found")
           middleware.Finish middleware.Finish))
        (http.fresh false) in
    seen w' = seen (middleware.serve
                      (middleware.ThenWriteHeader 404 (middleware.ThenWrite (http.Text "not found")
                         middleware.Finish middleware.Finish)) (http.fresh false))
    ∧ status = http.statusCode w'
    ∧ (level = "[ERROR]" ↔ 400 ≤ http.statusCode w')
    ∧ (level = "[INFO]" ↔ http.statusCode w' < 400).
Proof.
  split; [reflexivity|].
  apply (logRequest_logs_the_status_sent
           (middleware.ThenWriteHeader 404 (middleware.ThenWrite (http.Text "not found")
              middleware.Finish middleware.Finish)) (http.fresh false)); reflexivity.
Defined.

(** X11.  A failure answered through [errorResponse] is logged as a
    success: whatever status the caller asked for, [logRequest] logs the
    request at level INFO with status 200. *)
Theorem errorResponse_is_logged_as_info b status text :
  let '(w', line) := middleware.logRequest (errorHandler text) (http.fresh b) in
  seen w' = seen (errorResponse (http.fresh b) status (json.String text))
  ∧ line = ("[INFO]", 200).
Proof.
  pose proof (logRequest_logs_the_status_sent (errorHandler text) (http.fresh b)) as H.
  destruct (middleware.logRequest (errorHandler text) (http.fresh b)) as [w' [level st]] eqn:Hlog.
  destruct H as (Hseen & Hst & Herr & Hinfo); [done..|].
  rewrite (errorHandler_serve text status) in Hseen. split; [done|].
  assert (http.statusCode w' = 200) as Hc.
  { pose proof (errorResponse_fresh b status text) as [Hs _]. cbn zeta in Hs.
    rewrite <- Hs. exact (f_equal (λ t, t.1.1.1.1) Hseen). }
  rewrite Hst, Hc. f_equal. apply Hinfo. lia.
Qed.

(** The client of [gone] has left when the first output is forwarded. *)
Lemma deadline_handler_survives_disconnect_witness :
  let sched := [ExecuteGo.Main; ExecuteGo.Main; ExecuteGo.Main] in
  let s := ExecuteGo.executeHandler false gone sched in
  failedTexts (trace (ExecuteGo.hs s)) = [websocket.Raw (bytes_of ("1" +:+ nl))]
  ∧ let s' := ExecuteGo.exec gone (replicate 7 ExecuteGo.Main) s in
    (ExecuteGo.pc s = ExecuteGo.Unwinding ∨ ExecuteGo.pc s = ExecuteGo.Returned)
    ∧ ExecuteGo.pc s' = ExecuteGo.Returned
    ∧ removals (trace (ExecuteGo.hs s')) = [(ExecuteGo.id s', true)].
Proof.
  intros sched s. split; [reflexivity|].
  apply (deadline_handler_survives_disconnect false gone sched).
  vm_compute. discriminate.
Defined.

(** The same client: ten turns of the handler's goroutine see the failed
    write, the unwinding and the one removal. *)
Lemma deadline_handler_cleans_up_once_witness :
  let s := ExecuteGo.executeHandler false gone (replicate 10 ExecuteGo.Main) in
  ExecuteGo.pc s = ExecuteGo.Returned
  ∧ ExecuteGo.gpc s ≠ ExecuteGo.Idle
  ∧ removals (trace (ExecuteGo.hs s)) = [(ExecuteGo.id s, true)].
Proof.
  intros s.
  assert (Hpc : ExecuteGo.pc s = ExecuteGo.Returned) by reflexivity.
  assert (Hg : ExecuteGo.gpc s ≠ ExecuteGo.Idle) by (vm_compute; discriminate).
  split; [exact Hpc|]. split; [exact Hg|].
  exact (proj2 (deadline_handler_cleans_up_once false gone (replicate 10 ExecuteGo.Main))
               Hpc Hg).
Defined.

(** Two lines, both accepted: after five turns of the log goroutine
    [done] is closed and the client has received both. *)
Lemma scanner_forwards_lines_in_order_witness :
  let env := mkEnv (websocket.mkRequest "sandbox" None) None (Ok "package main") [] None
               (Ok "c0") None None (Ok (stdcopy.mkReader [] None)) ["hello"; "world"]
               (FromStatusCh 0) in
  let s := Part000.executeHandler false env (replicate 5 Part000.Logger) in
  Part000.done s = true
  ∧ omap textSent (trace (Part000.hs s))
    = [websocket.JSON "hello"; websocket.JSON "world"].
Proof.
  intros env s. split; [reflexivity|].
  apply (proj2 (scanner_forwards_lines_in_order false env (replicate 5 Part000.Logger))).
  reflexivity.
Defined.

(** ** execute.go: the output goes out in two batches *)

Lemma frames_nil_exhausts fuel dstout dsterr (src : list byte) ending bufs bufs' rest :
  (length src < fuel)%nat →
  stdcopy.frames fuel dstout dsterr src ending bufs = (bufs', rest, None) →
  rest = [] ∧ ending = None.
Proof.
  revert src bufs. induction fuel as [|fuel IH]; intros src bufs Hlen; [lia|].
  cbn [stdcopy.frames].
  do 8 (destruct src as [|? src]; [by intros [= _ <- <-]|]).
  destruct (stdcopy.stdType _) as [ty|]; [|done].
  case_decide; [by intros [= _ <- <-]|].
  cbn [length] in Hlen.
  destruct ty; try done; apply IH; rewrite length_drop; lia.
Qed.

Lemma StdCopy_nil_exhausts dstout dsterr r bufs bufs' r' :
  stdcopy.StdCopy dstout dsterr r bufs = (bufs', r', None) → exhausted r'.
Proof.
  unfold stdcopy.StdCopy.
  destruct (stdcopy.frames _ _ _ _ _ _) as [[b rest] e] eqn:Hf.
  intros [= -> <- ->].
  apply frames_nil_exhausts in Hf as [-> Hend]; [done|lia].
Qed.

Lemma StdCopy_exhausted dstout dsterr r bufs :
  exhausted r → stdcopy.StdCopy dstout dsterr r bufs = (bufs, r, None).
Proof. destruct r as [p e]. intros [Hp He]. cbn in *. by subst. Qed.

Lemma batches_copied env r0 B R :
  logs env = Ok r0 →
  stdcopy.StdCopy ExecuteGo.stdout ExecuteGo.stderr r0 ∅ = (B, R, None) →
  batches env = batch (B !!! ExecuteGo.stdout) ++ batch (B !!! ExecuteGo.stderr).
Proof. unfold batches. by intros -> ->. Qed.

Lemma batch_nil (b : list byte) : ¬ (0 < length b)%nat → batch b = [].
Proof. unfold batch. by case_decide. Qed.

Lemma batch_raw (b : list byte) : (0 < length b)%nat → batch b = [websocket.Raw b].
Proof. unfold batch. by case_decide. Qed.

Lemma empty_buffer (b : list byte) : ¬ (0 < length b)%nat → b = [].
Proof. destruct b; cbn; [done|lia]. Qed.

Lemma batch_forward buffer line next s env :
  match ExecuteGo.pc s, buffer, next with
  | ExecuteGo.AtStdout, 0%nat, ExecuteGo.AtStderr => True
  | ExecuteGo.AtStderr, 1%nat, ExecuteGo.AtSelect => True
  | _, _, _ => False
  end →
  batchInv env s → batchInv env (ExecuteGo.forward buffer line next s).
Proof.
  destruct s as [h p g d i r bf]. unfold batchInv, ExecuteGo.forward, allForwarded. cbn.
  intros Hp [Hd Hpc].
  destruct p; try done; destruct buffer as [|[|?]]; try done; destruct next; try done;
    clear Hp; destruct Hpc as [Hex Hpc].
  - (* stdout *)
    destruct Hpc as [(r0 & Hl & Hc & Htw)|(Ho & He & Htw & Hs)].
    + pose proof (batches_copied env r0 bf r Hl Hc) as Hb.
      unfold ExecuteGo.stdout, ExecuteGo.stderr in *.
      case_decide as Hlen; cbn.
      * unfold send.
        destruct (websocket.write _ _ _) as [c [e|]]; cbn;
          destruct line; hsimpl; cbn; tw_snoc; rewrite ?Htw; cbn.
        1,2: split; [done|]; rewrite Hb, (batch_raw _ Hlen); by apply prefix_app_r.
        all: split; [done|]; split; [done|]; left; exists r0, bf, r;
          rewrite (textWrites_nil_sent _ Htw), (batch_raw _ Hlen);
          rewrite lookup_total_insert, lookup_total_insert_ne by done; done.
      * split; [done|]. split; [done|]. left. exists r0, bf, r.
        rewrite (textWrites_nil_sent _ Htw), (batch_nil _ Hlen), Htw.
        by rewrite (empty_buffer _ Hlen).
    + unfold ExecuteGo.stdout, ExecuteGo.stderr in *.
      rewrite Ho. cbn. case_decide; [cbn in *; lia|]. cbn. split; [done|]. split; [done|].
      by right.
  - (* stderr *)
    destruct Hpc as [(r0 & B & R & Hl & Hc & Ho & He & Htw & Hs)|(Ho & He & Htw & Hs)].
    + pose proof (batches_copied env r0 B R Hl Hc) as Hb.
      unfold ExecuteGo.stdout, ExecuteGo.stderr in *.
      case_decide as Hlen; cbn.
      * unfold send.
        destruct (websocket.write _ _ _) as [c [e|]]; cbn;
          destruct line; hsimpl; cbn; tw_snoc; rewrite ?Hs, ?Htw; cbn.
        1,2: split; [done|]; by rewrite Hb, <- He, (batch_raw _ Hlen).
        all: split; [done|]; right; split; [done|];
          rewrite Hb, <- He, (batch_raw _ Hlen);
          split; [by rewrite lookup_total_insert_ne|];
          split; [by rewrite lookup_total_insert|done].
      * split; [done|]. right. split; [done|].
        rewrite Hs, Htw, Hb, <- He, (batch_nil _ Hlen), app_nil_r.
        by rewrite (empty_buffer _ Hlen).
    + unfold ExecuteGo.stdout, ExecuteGo.stderr in *.
      rewrite He. cbn. case_decide; [cbn in *; lia|]. cbn. split; [done|]. by right.
Qed.

Lemma batch_stepMain env s : batchInv env s → batchInv env (ExecuteGo.stepMain s).
Proof.
  unfold ExecuteGo.stepMain.
  destruct (ExecuteGo.pc s) eqn:Hpc;
    try (intros; apply batch_forward; [by rewrite Hpc|done]); try done.
  - (* AtSelect *)
    destruct s as [h p g d i r bf]. unfold batchInv, allForwarded. cbn in *. subst p.
    intros [Hd Hpc]. destruct d; cbn; [|done].
    split; [done|]. destruct Hpc as [(_ & _ & Htw)|(_ & _ & _ & Htw & _)]; rewrite Htw; [|done].
    apply prefix_nil.
  - (* AtStdCopy *)
    destruct s as [h p g d i r bf]. unfold batchInv, allForwarded. cbn in *. subst p.
    intros [Hd [(Hl & -> & Htw)|(Hex & Hall)]].
    + destruct (stdcopy.StdCopy _ _ _ _) as [[bufs' reader'] [e|]] eqn:Hc; cbn.
      * case_decide; cbn; [rewrite Htw; split; [done|apply prefix_nil]|].
        hsimpl. cbn. tw_snoc. rewrite Htw. split; [done|apply prefix_nil].
      * split; [done|]. split; [by eapply StdCopy_nil_exhausts|].
        left. by exists r.
    + rewrite (StdCopy_exhausted _ _ _ _ Hex). cbn. split; [done|]. split; [done|].
      by right.
  - (* AtCloseFrame *)
    destruct s as [h p g d i r bf]. unfold batchInv. cbn in *. subst p.
    intros [Hd Hpc]. hsimpl. wr. cbn. by tw_snoc.
  - (* Unwinding *)
    destruct s as [h p g d i r bf]. unfold batchInv. cbn in *. subst p.
    intros [Hd Hpc].
    destruct (defers h) as [|e ds] eqn:Hds; cbn; [by rewrite Hds|].
    unfold unwind1. rewrite Hds. unfold perform. cbn.
    apply textWrites_cons in Hd as [He Hd]. split; [done|].
    tw_snoc. rewrite He. cbn [option_list]. by rewrite app_nil_r.
Qed.

Lemma batch_stepWait env s : batchInv env s → batchInv env (ExecuteGo.stepWait env s).
Proof.
  destruct s as [h p g d i r bf]. unfold batchInv, ExecuteGo.stepWait, allForwarded. cbn.
  intros [Hd Hpc].
  destruct g; cbn; try done.
  - destruct (wait env) as [[e|]|c|]; hsimpl; cbn; tw_snoc; done.
  - hsimpl. wr. cbn. tw_snoc. done.
  - hsimpl. cbn. tw_snoc. done.
Qed.

Lemma batch_spawn b env : batchInv env (ExecuteGo.spawn b env).
Proof.
  unfold ExecuteGo.spawn, ExecuteGo.setup, startContainer.
  destruct env as [req hsk pl net nc cr cp st lg ln wt].
  cbn [request handshake payload newClient create copy start wait logs].
  rewrite upgrade_passes.
  unfold batchInv.
  destruct hsk as [e|]; [hsimpl; cbn; split; [done|apply prefix_nil]|].
  destruct pl as [text|e]; [|hsimpl; wr; hsimpl; cbn; split; [done|apply prefix_nil]].
  destruct nc as [e|]; [hsimpl; wr; hsimpl; cbn; split; [done|apply prefix_nil]|].
  destruct cr as [id|e]; [|hsimpl; wr; hsimpl; cbn; split; [done|apply prefix_nil]].
  destruct cp as [e|]; [hsimpl; wr; hsimpl; cbn; split; [done|apply prefix_nil]|].
  destruct st as [e|]; [hsimpl; wr; hsimpl; cbn; split; [done|apply prefix_nil]|].
  destruct lg as [r|e]; [|hsimpl; wr; hsimpl; cbn; split; [done|apply prefix_nil]].
  hsimpl. cbn. split; [done|]. by left.
Qed.

Lemma batch_exec env sched s : batchInv env s → batchInv env (ExecuteGo.exec env sched s).
Proof.
  unfold ExecuteGo.exec. revert s.
  induction sched as [|t sched IH]; intros s Hs; [done|].
  cbn. apply IH. destruct t; cbn; [by apply batch_stepMain|by apply batch_stepWait].
Qed.

(** X12.  execute.go does not stream: under every schedule the text
    messages written are a prefix of at most two, the whole of stdout and
    then the whole of stderr, as demultiplexed from the complete log
    stream; none is written when the stream ends in an error.  And when
    the loop is back at its select with the stream read to its end, the
    client has accepted exactly these. *)
Theorem deadline_handler_forwards_two_batches b env sched :
  let s := ExecuteGo.executeHandler b env sched in
  textWrites (trace (ExecuteGo.hs s)) `prefix_of` batches env
  ∧ (ExecuteGo.pc s = ExecuteGo.AtSelect → exhausted (ExecuteGo.reader s) →
     omap textSent (trace (ExecuteGo.hs s)) = batches env).
Proof.
  intros s.
  pose proof (batch_exec env sched _ (batch_spawn b env)) as Hs.
  fold (ExecuteGo.executeHandler b env sched) in Hs. fold s in Hs.
  unfold batchInv, allForwarded in Hs. destruct Hs as [Hd Hpc]. split.
  - destruct (ExecuteGo.pc s); try done.
    + destruct Hpc as [(_ & _ & Htw)|(_ & _ & _ & Htw & _)]; rewrite Htw;
        [apply prefix_nil|done].
    + destruct Hpc as [(_ & _ & Htw)|(_ & _ & _ & Htw & _)]; rewrite Htw;
        [apply prefix_nil|done].
    + destruct Hpc as [_ [(r0 & _ & _ & Htw)|(_ & _ & Htw & _)]]; rewrite Htw;
        [apply prefix_nil|done].
    + destruct Hpc as [_ [(r0 & B & R & Hl & Hc & _ & _ & Htw & _)|(_ & _ & Htw & _)]];
        rewrite Htw; [|done].
      rewrite (batches_copied env r0 B R Hl Hc). by apply prefix_app_r.
  - intros Hsel Hex. rewrite Hsel in Hpc.
    destruct Hpc as [(Hl & Hb & Htw)|(_ & _ & _ & _ & Hs)]; [|done].
    rewrite (textWrites_nil_sent _ Htw).
    pose proof (StdCopy_exhausted ExecuteGo.stdout ExecuteGo.stderr _ ∅ Hex) as Hc.
    by rewrite (batches_copied env _ _ _ Hl Hc).
Qed.

(** One pass of the loop over [mixed]: stdout is sent first, although
    stderr came first in the stream. *)
Lemma deadline_handler_forwards_two_batches_witness :
  let s := ExecuteGo.executeHandler false mixed (replicate 4 ExecuteGo.Main) in
  ExecuteGo.pc s = ExecuteGo.AtSelect
  ∧ exhausted (ExecuteGo.reader s)
  ∧ batches mixed = [websocket.Raw (bytes_of "o"); websocket.Raw (bytes_of "e")]
  ∧ omap textSent (trace (ExecuteGo.hs s)) = batches mixed.
Proof.
  intros s.
  assert (Hpc : ExecuteGo.pc s = ExecuteGo.AtSelect) by reflexivity.
  assert (Hex : exhausted (ExecuteGo.reader s)) by (split; reflexivity).
  split; [exact Hpc|]. split; [exact Hex|]. split; [reflexivity|].
  exact (proj2 (deadline_handler_forwards_two_batches false mixed
                  (replicate 4 ExecuteGo.Main)) Hpc Hex).
Defined.

(** ** The log stream, demultiplexed *)

Lemma stdType_streamByte ty : stdcopy.stdType (streamByte ty) = Some ty.
Proof. by destruct ty. Qed.

Lemma frames_multiplexed fuel dstout dsterr fs bufs :
  Forall wellFormed fs → (length fs < fuel)%nat →
  stdcopy.frames fuel dstout dsterr (multiplexed fs) None bufs
  = (demux dstout dsterr fs bufs, [], None).
Proof.
  intros Hwf. revert fuel bufs.
  induction Hwf as [|[ty [[[b4 b5] b6] b7] p] fs [Hty Hsz] Hwf IH]; intros fuel bufs Hlen.
  - destruct fuel; [cbn in Hlen; lia|done].
  - destruct fuel as [|fuel]; [lia|]. cbn in Hty, Hsz, Hlen.
    unfold multiplexed. rewrite fmap_cons. cbn [concat frameBytes size source data app].
    cbn [stdcopy.frames]. rewrite stdType_streamByte, Hsz.
    rewrite decide_False by (rewrite length_app; lia).
    rewrite take_app_length, drop_app_length.
    assert (length fs < fuel)%nat as Hlen' by lia.
    destruct ty; try done; apply (IH fuel _ Hlen').
Qed.

Lemma length_multiplexed fs : (length fs ≤ length (multiplexed fs))%nat.
Proof.
  induction fs as [|[ty [[[b4 b5] b6] b7] p] fs IH]; [done|].
  unfold multiplexed in *. rewrite fmap_cons. cbn [concat frameBytes size source data].
  rewrite !length_app. cbn. lia.
Qed.

Lemma StdCopy_multiplexed dstout dsterr fs bufs :
  Forall wellFormed fs →
  stdcopy.StdCopy dstout dsterr (stdcopy.mkReader (multiplexed fs) None) bufs
  = (demux dstout dsterr fs bufs, stdcopy.mkReader [] None, None).
Proof.
  intros Hwf. unfold stdcopy.StdCopy. cbn [stdcopy.pending stdcopy.ending].
  rewrite frames_multiplexed; [done|done|].
  pose proof (length_multiplexed fs). lia.
Qed.

Lemma demux_same d fs bufs :
  demux d d fs bufs !!! d = bufs !!! d ++ payloads fs.
Proof.
  revert bufs. induction fs as [|f fs IH]; intros bufs.
  - unfold payloads. cbn. by rewrite app_nil_r.
  - unfold demux in *. cbn [foldl]. rewrite IH. unfold stdcopy.bufWrite.
    unfold payloads. rewrite fmap_cons. cbn [concat].
    destruct (isStderr f); rewrite lookup_total_insert_eq; by rewrite <- app_assoc.
Qed.

Lemma demux_split dstout dsterr fs bufs :
  dstout ≠ dsterr →
  demux dstout dsterr fs bufs !!! dstout
    = bufs !!! dstout ++ payloads (filter (λ f, isStderr f = false) fs)
  ∧ demux dstout dsterr fs bufs !!! dsterr
    = bufs !!! dsterr ++ payloads (filter (λ f, isStderr f = true) fs).
Proof.
  intros Hne. revert bufs. induction fs as [|f fs IH]; intros bufs.
  - unfold payloads. cbn. by rewrite !app_nil_r.
  - unfold demux in *. cbn [foldl].
    destruct (IH (stdcopy.bufWrite (if isStderr f then dsterr else dstout) (data f) bufs))
      as [-> ->].
    unfold stdcopy.bufWrite. rewrite !filter_cons.
    destruct (isStderr f) eqn:Hf.
    + rewrite decide_False by done. rewrite decide_True by done.
      rewrite lookup_total_insert_eq, lookup_total_insert_ne by done.
      unfold payloads. rewrite fmap_cons. cbn [concat]. by rewrite <- app_assoc.
    + rewrite decide_True by done. rewrite decide_False by done.
      rewrite lookup_total_insert_eq, lookup_total_insert_ne by done.
      unfold payloads. rewrite fmap_cons. cbn [concat]. by rewrite <- app_assoc.
Qed.

(** X13.  part_001 copies stdout and stderr into the same buffer: when
    every client call succeeds and the log stream is a sequence of
    well-formed stdout and stderr frames, the answer is the success object
    whose output is the payloads of all frames, of both streams, in the
    order in which they arrived. *)
Theorem sync_output_merges_streams env fs :
  succeeds env →
  logs env = Ok (stdcopy.mkReader (multiplexed fs) None) →
  Forall wellFormed fs →
  http.body (w (Part001.serve false env))
  = [http.Json {[ "status" := "success"; "output" := string_of (payloads fs) ]}].
Proof.
  intros ([text Hpl] & Hnc & [id Hcr] & Hcp & Hst & Hwt) Hlg Hwf.
  sync_paths env. cbn in *. subst.
  destruct wt as [[e|]|code|]; try done; hsimpl.
  all: rewrite (StdCopy_multiplexed _ _ _ _ Hwf); hsimpl.
  all: rewrite Encode_strings; cbn.
  all: by rewrite demux_same, lookup_total_empty.
Qed.

(** The session [mixed]: "e" on stderr, then "o" on stdout, gives the
    output "eo". *)
Lemma sync_output_merges_streams_witness :
  succeeds mixed
  ∧ Forall wellFormed mixedFrames
  ∧ http.body (w (Part001.serve false mixed))
    = [http.Json {[ "status" := "success"; "output" := "eo" ]}].
Proof.
  assert (Hs : succeeds mixed).
  { split; [by exists "package main"|]. split; [reflexivity|].
    split; [by exists "c0"|]. split; [reflexivity|]. split; reflexivity. }
  assert (Hwf : Forall wellFormed mixedFrames).
  { repeat constructor; discriminate. }
  split; [exact Hs|]. split; [exact Hwf|].
  exact (sync_output_merges_streams mixed mixedFrames Hs eq_refl Hwf).
Defined.

(** ** execute.go: the two batches, by stream *)

Lemma batches_multiplexed env fs :
  logs env = Ok (stdcopy.mkReader (multiplexed fs) None) → Forall wellFormed fs →
  batches env
  = batch (payloads (filter (λ f, isStderr f = false) fs))
    ++ batch (payloads (filter (λ f, isStderr f = true) fs)).
Proof.
  intros Hlg Hwf. unfold batches. rewrite Hlg, (StdCopy_multiplexed _ _ _ _ Hwf).
  destruct (demux_split ExecuteGo.stdout ExecuteGo.stderr fs ∅) as [-> ->]; [done|].
  by rewrite !lookup_total_empty.
Qed.

Lemma batchInv_prefix env s :
  batchInv env s → textWrites (trace (ExecuteGo.hs s)) `prefix_of` batches env.
Proof.
  unfold batchInv, allForwarded. intros [Hd Hpc].
  destruct (ExecuteGo.pc s); try done.
  - destruct Hpc as [(_ & _ & Htw)|(_ & _ & _ & Htw & _)]; rewrite Htw;
      [apply prefix_nil|done].
  - destruct Hpc as [(_ & _ & Htw)|(_ & _ & _ & Htw & _)]; rewrite Htw;
      [apply prefix_nil|done].
  - destruct Hpc as [_ [(r0 & _ & _ & Htw)|(_ & _ & Htw & _)]]; rewrite Htw;
      [apply prefix_nil|done].
  - destruct Hpc as [_ [(r0 & B & R & Hl & Hc & _ & _ & Htw & _)|(_ & _ & Htw & _)]];
      rewrite Htw; [|done].
    rewrite (batches_copied env r0 B R Hl Hc). by apply prefix_app_r.
Qed.

(** X14.  execute.go regroups the output by stream: when the log stream
    is a sequence of well-formed stdout and stderr frames, the text
    messages written are, under every schedule, a prefix of: one message
    with the payloads of all stdout frames (if there are any bytes), then
    one message with the payloads of all stderr frames; the order in which
    the two streams alternated is not kept. *)
Theorem deadline_handler_regroups_streams b env fs sched :
  logs env = Ok (stdcopy.mkReader (multiplexed fs) None) → Forall wellFormed fs →
  textWrites (trace (ExecuteGo.hs (ExecuteGo.executeHandler b env sched)))
  `prefix_of` batch (payloads (filter (λ f, isStderr f = false) fs))
              ++ batch (payloads (filter (λ f, isStderr f = true) fs)).
Proof.
  intros Hlg Hwf. rewrite <- (batches_multiplexed env fs Hlg Hwf).
  apply batchInv_prefix, batch_exec, batch_spawn.
Qed.

(** The session [mixed] after one pass of the loop: "o" is sent before
    "e". *)
Lemma deadline_handler_regroups_streams_witness :
  let s := ExecuteGo.executeHandler false mixed (replicate 4 ExecuteGo.Main) in
  Forall wellFormed mixedFrames
  ∧ textWrites (trace (ExecuteGo.hs s))
    = [websocket.Raw (bytes_of "o"); websocket.Raw (bytes_of "e")]
  ∧ textWrites (trace (ExecuteGo.hs s))
    `prefix_of` batch (payloads (filter (λ f, isStderr f = false) mixedFrames))
                ++ batch (payloads (filter (λ f, isStderr f = true) mixedFrames)).
Proof.
  intros s.
  assert (Hwf : Forall wellFormed mixedFrames).
  { repeat constructor; discriminate. }
  split; [exact Hwf|]. split; [reflexivity|].
  exact (deadline_handler_regroups_streams false mixed mixedFrames
           (replicate 4 ExecuteGo.Main) eq_refl Hwf).
Defined.

(** ** execute.go: the handler always returns *)








(** ** part_000: the session that ends well *)

Lemma failedTexts_stay tr e : failedTexts tr ≠ [] → failedTexts (tr ++ [e]) ≠ [].
Proof. rewrite failedTexts_snoc. intros Hne [? _]%app_eq_nil. done. Qed.

Lemma closed_step env s t : closedInv env s → closedInv env (Part000.step env s t).
Proof.
  destruct s as [h p l wp d i]. unfold closedInv. cbn.
  intros Hl. destruct t; cbn.
  - (* the handler *)
    destruct p; cbn; [by destruct d| |done].
    destruct (defers h) as [|e ds] eqn:Hds; cbn; [done|].
    unfold unwind1. rewrite Hds. unfold perform. cbn.
    destruct l; try done; destruct Hl as [?|[?|?]]; auto using failedTexts_stay.
  - (* the scanning goroutine *)
    destruct l as [| | |[|line rest]| | |]; cbn; try done.
    + destruct (logs env) as [r|e] eqn:Hlg; hsimpl; cbn; [done|]. by intros r.
    + hsimpl. wr. cbn. auto.
    + hsimpl. destruct (websocket.write _ _ _) as [c [e|]]; cbn in *; [|lia].
      right. left. apply failedTexts_stay. rewrite failedTexts_snoc. cbn.
      by intros [? ?]%app_eq_nil.
    + by left.
    + hsimpl. cbn. destruct Hl as [?|[?|?]]; auto using failedTexts_stay.
  - (* the waiting goroutine *)
    destruct wp; cbn; try done.
    destruct (wait env) as [[e|]|code|]; hsimpl; cbn; try done;
      destruct l; try done; destruct Hl as [?|[?|?]]; auto using failedTexts_stay.
Qed.

Lemma closed_exec b env sched : closedInv env (Part000.executeHandler b env sched).
Proof.
  unfold Part000.executeHandler, Part000.exec.
  assert (closedInv env (Part000.spawn b env)) as Hs.
  { unfold Part000.spawn. by destruct (startContainer false env _) as [[id|] h]. }
  revert Hs. generalize (Part000.spawn b env).
  induction sched as [|t sched IH]; intros s Hs; [done|].
  cbn. by apply IH, closed_step.
Qed.

Lemma logTurns_step env s :
  (logTurns env (Part000.lpc (Part000.stepLog env s)) ≤ pred (logTurns env (Part000.lpc s)))%nat.
Proof.
  destruct s as [h p l wp d i]. unfold Part000.stepLog, send. cbn.
  destruct l as [| | |[|line rest]| | |]; cbn; try lia.
  - destruct (logs env); cbn; lia.
  - destruct (websocket.write _ _ _) as [c [e|]]; cbn; lia.
Qed.

Lemma logger_leaves_loop env n s :
  (logTurns env (Part000.lpc s) ≤ n)%nat →
  logTurns env (Part000.lpc (Part000.exec env (replicate n Part000.Logger) s)) = 0%nat.
Proof.
  revert s. induction n as [|n IH]; intros s Hn; [cbn in *; lia|].
  change (Part000.exec env (replicate (S n) Part000.Logger) s)
    with (Part000.exec env (replicate n Part000.Logger) (Part000.stepLog env s)).
  apply IH. pose proof (logTurns_step env s). lia.
Qed.

Lemma logger_stays_started env n s :
  Part000.lpc s ≠ Part000.LIdle →
  Part000.lpc (Part000.exec env (replicate n Part000.Logger) s) ≠ Part000.LIdle.
Proof.
  revert s. induction n as [|n IH]; intros s Hs; [done|].
  change (Part000.exec env (replicate (S n) Part000.Logger) s)
    with (Part000.exec env (replicate n Part000.Logger) (Part000.stepLog env s)).
  apply IH. destruct s as [h p l wp d i]. unfold Part000.stepLog, send. cbn in *.
  destruct l as [| | |[|line rest]| | |]; cbn; try done.
  - by destruct (logs env).
  - by destruct (websocket.write _ _ _) as [c [e|]].
Qed.

Lemma scanner_returns_after_done b env sched :
  let s := Part000.executeHandler b env sched in
  Part000.done s = true →
  let s' := Part000.exec env (replicate 6 Part000.Main) s in
  Part000.pc s' = Part000.Returned
  ∧ removals (trace (Part000.hs s')) = [(Part000.id s', true)].
Proof.
  intros s Hdone s'.
  assert (cleanupInvP s) as Hs by apply cleanupP_exec, cleanupP_spawn.
  assert (cleanupInvP s') as Hs' by by apply cleanupP_exec.
  assert (Part000.lpc s ≠ Part000.LIdle ∧ Part000.pc s' = Part000.Returned) as [Hl Hpc].
  { subst s'. unfold cleanupInvP in Hs. destruct (Part000.pc s) eqn:Hp.
    - destruct Hs as (Hr & Hd & Hl). split; [done|].
      change (Part000.exec env (replicate 6 Part000.Main) s)
        with (Part000.exec env (replicate 5 Part000.Main) (Part000.stepMain s)).
      apply unwinding_returnsP; unfold Part000.stepMain; rewrite Hp, Hdone; [done|].
      destruct s as [h p l wp d i]. cbn in *. rewrite Hd. cbn. lia.
    - destruct Hs as (Hr & Hlen & Hl). split; [done|].
      change (Part000.exec env (replicate 6 Part000.Main) s)
        with (Part000.exec env (replicate 5 Part000.Main) (Part000.stepMain s)).
      unfold Part000.stepMain. rewrite Hp.
      destruct (defers (Part000.hs s)) as [|e ds] eqn:Hds.
      + by rewrite returned_staysP.
      + apply unwinding_returnsP; [done|].
        destruct s as [h p l wp d i]. cbn in *. unfold unwind1. rewrite Hds. cbn. lia.
    - rewrite (returned_staysP env 6 s Hp).
      destruct Hs as [_ [(_ & Hd & _)|(? & _)]]; [congruence|done]. }
  split; [done|].
  unfold cleanupInvP in Hs'. rewrite Hpc in Hs'.
  destruct Hs' as [_ [(Hidle & _)|(_ & ?)]]; [|done].
  subst s'. by rewrite lpc_main_turns in Hidle.
Qed.

(** X16.  part_000 does come to an end when nothing goes wrong: in a
    started session whose log stream was opened, once the scanning
    goroutine has had a turn for every line and three more, and no text
    write has failed, [done] is closed and the client has accepted every
    line, in order; six turns of the handler later the handler has returned
    and the container is removed, with force, exactly once. *)
Theorem scanner_handler_returns_when_lines_accepted b env sched r :
  let s := Part000.executeHandler b env sched in
  let s1 := Part000.exec env (replicate (length (lines env) + 3) Part000.Logger) s in
  let s2 := Part000.exec env (replicate 6 Part000.Main) s1 in
  Part000.lpc s ≠ Part000.LIdle → logs env = Ok r →
  failedTexts (trace (Part000.hs s1)) = [] →
  Part000.done s1 = true
  ∧ omap textSent (trace (Part000.hs s1)) = websocket.JSON <$> lines env
  ∧ Part000.pc s2 = Part000.Returned
  ∧ removals (trace (Part000.hs s2)) = [(Part000.id s2, true)].
Proof.
  intros s s1 s2 Hstart Hlg Hf.
  set (L := replicate (length (lines env) + 3) Part000.Logger) in *.
  assert (s1 = Part000.executeHandler b env (sched ++ L)) as Hs1.
  { subst s1 s. unfold Part000.executeHandler, Part000.exec. by rewrite foldl_app. }
  assert (logTurns env (Part000.lpc s1) = 0%nat) as Hturns.
  { subst s1 L. apply logger_leaves_loop.
    pose proof (closed_exec b env sched) as Hc. fold s in Hc. unfold closedInv in Hc.
    destruct (Part000.lpc s); cbn; lia. }
  assert (Part000.lpc s1 ≠ Part000.LIdle) as Hstart1
    by by apply logger_stays_started.
  assert (Part000.done s1 = true) as Hdone.
  { pose proof (closed_exec b env (sched ++ L)) as Hc. rewrite <- Hs1 in Hc.
    unfold closedInv in Hc.
    destruct (Part000.lpc s1); cbn in Hturns; try done; try lia;
      destruct Hc as [?|[?|Hno]]; try done; by destruct (Hno r). }
  split; [done|]. split.
  - pose proof (forwarding_exec env (sched ++ L) _ (forwarding_spawn b env)) as [_ Hfw].
    fold (Part000.executeHandler b env (sched ++ L)) in Hfw. rewrite <- Hs1 in Hfw.
    destruct (Part000.lpc s1); cbn in Hturns; try done; try lia;
      destruct Hfw as [_ Hfw]; by apply Hfw.
  - subst s2. rewrite Hs1. apply scanner_returns_after_done. by rewrite <- Hs1.
Qed.

(** The session [twoLines], scheduled from its start. *)
Lemma scanner_handler_returns_when_lines_accepted_witness :
  let s := Part000.executeHandler false twoLines [] in
  let s1 := Part000.exec twoLines (replicate 5 Part000.Logger) s in
  let s2 := Part000.exec twoLines (replicate 6 Part000.Main) s1 in
  Part000.lpc s = Part000.AtLogs
  ∧ failedTexts (trace (Part000.hs s1)) = []
  ∧ Part000.done s1 = true
  ∧ omap textSent (trace (Part000.hs s1)) = [websocket.JSON "hello"; websocket.JSON "world"]
  ∧ Part000.pc s2 = Part000.Returned
  ∧ removals (trace (Part000.hs s2)) = [(Part000.id s2, true)].
Proof.
  intros s s1 s2. split; [reflexivity|]. split; [reflexivity|].
  apply (scanner_handler_returns_when_lines_accepted false twoLines []
           (stdcopy.mkReader [] None)); [discriminate|reflexivity|reflexivity].
Defined.

(** ** middleware.go: one WriteHeader reaches the writer *)

Lemma headerCalls_Write p w :
  http.headerCalls (http.Write p w).1 = http.headerCalls w.
Proof.
  unfold http.Write, http.commit.
  destruct w as [sc hw hd bd hc br]. cbn. by destruct hw, br.
Qed.

Lemma oneCall_serve base next rw :
  oneCall base rw → oneCall base (middleware.serveWrapped next rw).
Proof.
  revert rw. induction next as [|k v next IH|code next IH|p onOk IHok onErr IHerr];
    intros rw Hrw; cbn.
  - done.
  - apply IH. by destruct rw as [inner sc hw].
  - apply IH. destruct rw as [inner sc [|]]; unfold oneCall, middleware.WriteHeader in *;
      cbn in *; [done|].
    unfold http.WriteHeader. cbn. rewrite app_nil_r in Hrw.
    unfold http.commit. destruct (http.headerWritten inner); cbn; by rewrite Hrw.
  - assert (oneCall base (middleware.Write p rw).1) as Hw.
    { destruct rw as [inner sc [|]]; unfold oneCall, middleware.Write, middleware.WriteHeader in *;
        cbn in *.
      - pose proof (headerCalls_Write p inner) as Hc.
        destruct (http.Write p inner) as [inner' err]. cbn in *. by rewrite Hc.
      - pose proof (headerCalls_Write p (http.WriteHeader http.StatusOK inner)) as Hc.
        destruct (http.Write p _) as [inner' err]. cbn in *. rewrite Hc.
        unfold http.WriteHeader. cbn. rewrite app_nil_r in Hrw.
        unfold http.commit. destruct (http.headerWritten inner); cbn; by rewrite Hrw. }
    destruct (middleware.Write p rw) as [rw' [e|]]; [by apply IHerr|by apply IHok].
Qed.

(** X17.  Behind [logRequest] the underlying writer receives at most one
    [WriteHeader] call, whatever the handler does, and that call carries
    the status that is logged; every later [WriteHeader] of the handler is
    dropped by the wrapper. *)
Theorem logRequest_passes_one_WriteHeader next w :
  let '(w', (_, status)) := middleware.logRequest next w in
  http.headerCalls w' = http.headerCalls w
  ∨ http.headerCalls w' = http.headerCalls w ++ [status].
Proof.
  unfold middleware.logRequest.
  pose proof (oneCall_serve (http.headerCalls w) next
                (middleware.mkResponseWriter w http.StatusOK false)) as Hone.
  unfold oneCall at 1 in Hone. cbn in Hone. rewrite app_nil_r in Hone.
  specialize (Hone eq_refl). unfold oneCall in Hone.
  destruct (middleware.headerWritten _); [by right|left; by rewrite app_nil_r in Hone].
Qed.
